(** * Simulated exchange engine: position manager and simulation client

    Shallow embedding of
      - [const/const.py]               (class [Fee])
      - [agents/manager_position.py]   (class [ManagerPosition])
      - [agents/client_simulation.py]  (class [ClientSimulation])
      - [envs/env_trading_base.py]     ([_open] and [_close])

    Python [float] values are embedded as exact rationals ([Q]); the
    comparisons [<], [<=], [==] of the source are the boolean tests
    [Qltb], [Qle_bool], [Qeq_bool].  Python [int] values are [Z].
    Objects mutated through [self] are records that every method takes
    and returns.

    Where the sign of a result depends on rounding, the position manager
    is embedded a second time over IEEE 754 binary64, the arithmetic of
    Python's [float] (module [Binary64]). *)

From Stdlib Require Import QArith Qabs Qminmax ZArith Lia Lqa.
From Stdlib Require PrimFloat.

#[local] Set Warnings "-inexact-float".
From stdpp Require Import gmap strings list fin_maps.

Open Scope Q_scope.

(** ** Comparisons of the source on rationals *)

(** Python [a < b]. *)
Definition Qltb (a b : Q) : bool := negb (Qle_bool b a).

(** ** const/const.py : class Fee *)

Module Fee.

(** [Maker = 0.0002] *)
Definition Maker : Q := 2 # 10000.

(** [Taker = 0.0005] *)
Definition Taker : Q := 5 # 10000.

(** [Fee.commission(amount)]: every fill is charged the taker rate. *)
Definition commission (amount : Q) : Q := amount * Taker.

End Fee.

(** ** agents/manager_position.py : class ManagerPosition *)

Record ManagerPosition := mkPosition {
  side : Z;            (* 1 long, -1 short, 0 flat *)
  size : Q;
  entry_price : Q;
  unrealized_pnl : Q;
  holding_time : Z;
  idle_time : Z;
  capital : Q;
  max_profit : Q;
  max_loss : Q
}.

(** [ManagerPosition()] with the default arguments of [__init__]. *)
Definition init_position : ManagerPosition :=
  mkPosition 0 0 0 0 0 0 0 0 0.


(** [update(self, current_price)] *)
Definition update (self : ManagerPosition) (current_price : Q) : ManagerPosition :=
  if Z.eqb (side self) 0 then
    mkPosition (side self) 0 0 0 0 (idle_time self + 1)%Z 0
               (max_profit self) (max_loss self)
  else
    let pnl :=
      if Z.eqb (side self) 1
      then (current_price - entry_price self) * size self
      else (entry_price self - current_price) * size self in
    let mp := if Qltb (max_profit self) pnl then pnl else max_profit self in
    let ml := if Qltb (max_profit self) pnl then max_loss self
              else if Qltb pnl (max_loss self) then pnl else max_loss self in
    mkPosition (side self) (size self) (entry_price self) pnl
               (holding_time self + 1)%Z 0 (capital self) mp ml.

(** The literal [0.0000000001] guarding [open]. *)
Definition epsilon : Q := 1 # 10000000000.

(** [open(self, current_price, position_size, balance, side)]:
    the new receiver and the returned pair [(ok, balance)]. *)
Definition open (self : ManagerPosition)
    (current_price position_size balance : Q) (side_arg : Z)
  : ManagerPosition * (bool * Q) :=
  if Qle_bool position_size epsilon then (self, (false, balance))
  else
    let amount := position_size * current_price in
    let commission := Fee.commission amount in
    if Qltb balance (commission + amount) then (self, (false, balance))
    else
      let balance := balance - commission - amount in
      (mkPosition side_arg position_size current_price 0 1 0
                  (amount + commission) 0 0,
       (true, balance)).

(** [close(self, current_price, balance)]: the new receiver and the
    returned pair [(realized_pnl, balance)].  The two assignments of the
    flooring branch are kept in the order of the source: [balance = 0]
    first, [realized_pnl = -balance] second. *)
Definition close (self : ManagerPosition) (current_price balance : Q)
  : ManagerPosition * (Q * Q) :=
  let amount := size self * current_price in
  let realized_pnl :=
    if Z.eqb (side self) 1
    then (current_price - entry_price self) * size self
    else (entry_price self - current_price) * size self in
  let commission := Fee.commission amount in
  let balance := balance + amount - commission in
  let '(realized_pnl, balance) :=
    if Qltb balance 0 then
      let balance := 0 in
      let realized_pnl := - balance in
      (realized_pnl, balance)
    else (realized_pnl, balance) in
  (mkPosition 0 0 0 0 0 1 0 0 0, (realized_pnl, balance)).

(** [commission(self, current_price)] *)
Definition commission (self : ManagerPosition) (current_price : Q) : Q :=
  if Z.eqb (side self) 0 || Qeq_bool (size self) 0 then 0
  else Fee.commission (size self * current_price).

(** ** agents/manager_position.py over binary64 *)

Module Binary64.
Import PrimFloat.

(** [Fee.Taker = 0.0005], the nearest binary64 value as in Python. *)
Definition Taker : float := 0.0005%float.

(** [Fee.commission(amount)] *)
Definition Fee_commission (amount : float) : float := (amount * Taker)%float.

Record ManagerPosition := mkPosition {
  side : Z;
  size : float;
  entry_price : float;
  unrealized_pnl : float;
  holding_time : Z;
  idle_time : Z;
  capital : float;
  max_profit : float;
  max_loss : float
}.

(** [ManagerPosition()] *)
Definition init_position : ManagerPosition :=
  mkPosition 0 0%float 0%float 0%float 0 0 0%float 0%float 0%float.

(** The literal [0.0000000001]. *)
Definition epsilon : float := 0.0000000001%float.

(** [open(self, current_price, position_size, balance, side)] with the
    operations of the source in their order: the guard compares
    [balance] with the rounded sum [commission + amount], the debit
    subtracts [commission] and then [amount], rounding after each. *)
Definition open (self : ManagerPosition)
    (current_price position_size balance : float) (side_arg : Z)
  : ManagerPosition * (bool * float) :=
  if (position_size <=? epsilon)%float then (self, (false, balance))
  else
    let amount := (position_size * current_price)%float in
    let commission := Fee_commission amount in
    if (balance <? commission + amount)%float then (self, (false, balance))
    else
      let balance := (balance - commission - amount)%float in
      (mkPosition side_arg position_size current_price 0%float 1 0
                  (amount + commission)%float 0%float 0%float,
       (true, balance)).

(** [close(self, current_price, balance)]; the [0] assigned on the
    floor is the integer 0 of the source, whose negation is 0. *)
Definition close (self : ManagerPosition) (current_price balance : float)
  : ManagerPosition * (float * float) :=
  let amount := (size self * current_price)%float in
  let realized_pnl :=
    if Z.eqb (side self) 1
    then ((current_price - entry_price self) * size self)%float
    else ((entry_price self - current_price) * size self)%float in
  let commission := Fee_commission amount in
  let balance := (balance + amount - commission)%float in
  let '(realized_pnl, balance) :=
    if (balance <? 0)%float then
      let balance := 0%float in
      let realized_pnl := balance in
      (realized_pnl, balance)
    else (realized_pnl, balance) in
  (mkPosition 0 0%float 0%float 0%float 0 1 0%float 0%float 0%float,
   (realized_pnl, balance)).

End Binary64.

(** ** agents/client_simulation.py : class ClientSimulation *)

Module Client.

(** The string constants of [binance.enums] used by the client. *)
Definition SIDE_BUY : string := "BUY".
Definition SIDE_SELL : string := "SELL".

(** [order['type']]: only ever set to one of the two constants. *)
Inductive OrderType := ORDER_TYPE_MARKET | ORDER_TYPE_LIMIT.

(** [order['status']]: ['NEW'], ['FILLED'] or ['CANCELED']. *)
Inductive OrderStatus := NEW | FILLED | CANCELED.

(** The order dictionary.  [orderId] is [str(uuid.uuid4())], an opaque
    token, embedded as the number of the draw. *)
Record Order := mkOrder {
  orderId : nat;
  o_symbol : string;
  o_side : string;
  o_type : OrderType;
  quantity : Q;
  price : Q;
  timeInForce : option string;
  reduceOnly : bool;
  status : OrderStatus;
  time : Z
}.

(** The trade dictionary appended to [self.trades]. *)
Record Trade := mkTrade {
  t_symbol : string;
  t_id : nat;
  t_orderId : nat;
  t_side : string;
  t_price : Q;
  t_quantity : Q;
  t_commission : Q;
  t_time : Z
}.

(** [self.positions[symbol]]: [{'size': ..., 'entry_price': ...}];
    [size] is signed (positive long, negative short). *)
Record Holding := mkHolding {
  h_size : Q;
  h_entry_price : Q
}.

(** The mutable fields of the client that the order path touches,
    with the two outside sources it reads: the next [uuid4] draw and
    the wall clock in milliseconds. *)
Record ClientSimulation := mkClient {
  balance : Q;
  positions : gmap string Holding;
  orders : list Order;
  trades : list Trade;
  market_prices : gmap string Q;
  uuid_next : nat;
  clock : Z
}.

(** [__init__]: the account state for [config['initial_balance']]. *)
Definition init (initial_balance : Q) (clock0 : Z) : ClientSimulation :=
  mkClient initial_balance ∅ [] [] ∅ 0 clock0.

Definition set_balance (b : Q) (self : ClientSimulation) :=
  mkClient b (positions self) (orders self) (trades self)
           (market_prices self) (uuid_next self) (clock self).
Definition set_positions (ps : gmap string Holding) (self : ClientSimulation) :=
  mkClient (balance self) ps (orders self) (trades self)
           (market_prices self) (uuid_next self) (clock self).
Definition set_orders (os : list Order) (self : ClientSimulation) :=
  mkClient (balance self) (positions self) os (trades self)
           (market_prices self) (uuid_next self) (clock self).
Definition set_trades (ts : list Trade) (self : ClientSimulation) :=
  mkClient (balance self) (positions self) (orders self) ts
           (market_prices self) (uuid_next self) (clock self).
Definition set_market_prices (mp : gmap string Q) (self : ClientSimulation) :=
  mkClient (balance self) (positions self) (orders self) (trades self)
           mp (uuid_next self) (clock self).
Definition set_status (st : OrderStatus) (o : Order) : Order :=
  mkOrder (orderId o) (o_symbol o) (o_side o) (o_type o) (quantity o)
          (price o) (timeInForce o) (reduceOnly o) st (time o).

(** [str(uuid.uuid4())]: a fresh token. *)
Definition uuid4 (self : ClientSimulation) : nat * ClientSimulation :=
  (uuid_next self,
   mkClient (balance self) (positions self) (orders self) (trades self)
            (market_prices self) (S (uuid_next self)) (clock self)).

(** [int(datetime.now().timestamp() * 1000)] *)
Definition now_ms (self : ClientSimulation) : Z := clock self.

(** [_calculate_commission(order_value)] *)
Definition _calculate_commission (order_value : Q) : Q :=
  order_value * Fee.Taker.

(** [_update_position(symbol, side, quantity, price)] *)
Definition _update_position (self : ClientSimulation)
    (symbol side : string) (quantity price : Q) : ClientSimulation :=
  let positions0 :=
    match positions self !! symbol with
    | Some _ => positions self
    | None => <[symbol := mkHolding 0 0]> (positions self)
    end in
  let position := default (mkHolding 0 0) (positions0 !! symbol) in
  let old_size := h_size position in
  let new_size :=
    if String.eqb side SIDE_BUY then old_size + quantity
    else old_size - quantity in
  let entry :=
    if Qle_bool (old_size * new_size) 0 || Qeq_bool new_size 0 then
      if negb (Qeq_bool new_size 0) then price else 0
    else
      (Qabs old_size * h_entry_price position + quantity * price)
      / Qabs new_size in
  let positions1 := <[symbol := mkHolding new_size entry]> positions0 in
  let commission := _calculate_commission (price * quantity) in
  set_balance (balance self - commission) (set_positions positions1 self).

(** [place_market_order(symbol, side, quantity, reduce_only)]:
    [None] is the empty dictionary [{}].  [if not price] is true for a
    missing entry and for a cached price equal to zero. *)
Definition place_market_order (self : ClientSimulation)
    (symbol side : string) (quantity : Q) (reduce_only : bool)
  : ClientSimulation * option Order :=
  match market_prices self !! symbol with
  | None => (self, None)
  | Some price =>
    if Qeq_bool price 0 then (self, None)
    else
      let '(order_id, self) := uuid4 self in
      let order :=
        mkOrder order_id symbol side ORDER_TYPE_MARKET quantity price
                None reduce_only FILLED (now_ms self) in
      let self := _update_position self symbol side quantity price in
      let self := set_orders (orders self ++ [order]) self in
      let '(trade_id, self) := uuid4 self in
      let trade :=
        mkTrade symbol trade_id order_id side price quantity
                (_calculate_commission (price * quantity)) (time order) in
      (set_trades (trades self ++ [trade]) self, Some order)
  end.

(** [place_limit_order(symbol, side, quantity, price, time_in_force,
    reduce_only)] *)
Definition place_limit_order (self : ClientSimulation)
    (symbol side : string) (quantity price : Q)
    (time_in_force : string) (reduce_only : bool)
  : ClientSimulation * Order :=
  let '(order_id, self) := uuid4 self in
  let order :=
    mkOrder order_id symbol side ORDER_TYPE_LIMIT quantity price
            (Some time_in_force) reduce_only NEW (now_ms self) in
  (set_orders (orders self ++ [order]) self, order).

(** [cancel_order(symbol, order_id)]: the loop over [self.orders];
    the first matching order that is still ['NEW'] is canceled and
    returned. *)
Fixpoint cancel_order_loop (symbol : string) (order_id : nat)
    (todo : list Order) : list Order * option Order :=
  match todo with
  | [] => ([], None)
  | order :: rest =>
    if Nat.eqb (orderId order) order_id && String.eqb (o_symbol order) symbol then
      match status order with
      | NEW => (set_status CANCELED order :: rest,
                Some (set_status CANCELED order))
      | _ => let '(rest', r) := cancel_order_loop symbol order_id rest in
             (order :: rest', r)
      end
    else
      let '(rest', r) := cancel_order_loop symbol order_id rest in
      (order :: rest', r)
  end.

Definition cancel_order (self : ClientSimulation) (symbol : string)
    (order_id : nat) : ClientSimulation * option Order :=
  let '(os, r) := cancel_order_loop symbol order_id (orders self) in
  (set_orders os self, r).

(** The guard of the outer [if] of [_check_limit_orders]. *)
Definition is_resting (symbol : string) (order : Order) : bool :=
  String.eqb (o_symbol order) symbol
  && match status order with NEW => true | _ => false end
  && match o_type order with ORDER_TYPE_LIMIT => true | _ => false end.

(** The guard of the inner [if] of [_check_limit_orders]. *)
Definition crosses (tick : Q) (order : Order) : bool :=
  (String.eqb (o_side order) SIDE_BUY && Qle_bool tick (price order))
  || (String.eqb (o_side order) SIDE_SELL && Qle_bool (price order) tick).

(** The body of the inner [if]: the position update and the trade
    record of one limit fill ([order['status'] = 'FILLED'] is applied
    to the order list by the loop). *)
Definition fill_limit_order (symbol : string) (self : ClientSimulation)
    (order : Order) : ClientSimulation :=
  let self := _update_position self symbol (o_side order)
                               (quantity order) (price order) in
  let '(trade_id, self) := uuid4 self in
  let trade :=
    mkTrade symbol trade_id (orderId order) (o_side order) (price order)
            (quantity order)
            (_calculate_commission (price order * quantity order))
            (now_ms self) in
  set_trades (trades self ++ [trade]) self.

(** [for order in self.orders: ...] of [_check_limit_orders]: the
    orders as the loop leaves them and the client after the fills. *)
Fixpoint check_limit_orders_loop (symbol : string) (tick : Q)
    (todo : list Order) (self : ClientSimulation)
  : list Order * ClientSimulation :=
  match todo with
  | [] => ([], self)
  | order :: rest =>
    if is_resting symbol order && crosses tick order then
      let self := fill_limit_order symbol self order in
      let '(rest', self) := check_limit_orders_loop symbol tick rest self in
      (set_status FILLED order :: rest', self)
    else
      let '(rest', self) := check_limit_orders_loop symbol tick rest self in
      (order :: rest', self)
  end.

(** [_check_limit_orders(symbol, price)] *)
Definition _check_limit_orders (self : ClientSimulation)
    (symbol : string) (tick : Q) : ClientSimulation :=
  let '(os, self) :=
    check_limit_orders_loop symbol tick (orders self) self in
  set_orders os self.

(** [update_market_price(symbol, price)] *)
Definition update_market_price (self : ClientSimulation)
    (symbol : string) (tick : Q) : ClientSimulation :=
  let self := set_market_prices (<[symbol := tick]> (market_prices self)) self in
  _check_limit_orders self symbol tick.

End Client.

(** ** Vocabulary of the statements about the client *)

Module ClientSpec.
Import Client.

(** The inner test of [_check_limit_orders] as a proposition. *)
Definition fills_at (tick : Q) (o : Order) : Prop :=
  (o_side o = SIDE_BUY /\ tick <= price o) \/
  (o_side o = SIDE_SELL /\ price o <= tick).

(** The outer test as a proposition: a resting limit order of the
    symbol. *)
Definition resting (symbol : string) (o : Order) : Prop :=
  o_symbol o = symbol /\ status o = NEW /\ o_type o = ORDER_TYPE_LIMIT.

(** The orders a tick fills. *)
Definition eligible (symbol : string) (tick : Q) (o : Order) : bool :=
  is_resting symbol o && crosses tick o.

(** What the loop does to one order of the list. *)
Definition mark (symbol : string) (tick : Q) (o : Order) : Order :=
  if eligible symbol tick o then set_status FILLED o else o.

(** The trade record of the fill of order [o] on a tick of [symbol],
    up to its token and time. *)
Definition trade_matches (symbol : string) (o : Order) (t : Trade) : Prop :=
  t_orderId t = orderId o /\ t_symbol t = symbol /\
  t_side t = o_side o /\ t_price t = price o /\
  t_quantity t = quantity o /\
  t_commission t = price o * quantity o * Fee.Taker.

(** The commissions a run of fills charges. *)
Fixpoint total_commission (l : list Order) : Q :=
  match l with
  | [] => 0
  | o :: l => price o * quantity o * Fee.Taker + total_commission l
  end.

(** A client with balance 1000 and one resting buy of 1 at 100. *)
Definition one_buy_at_100 : ClientSimulation :=
  fst (place_limit_order (init 1000 0) "BTCUSDT" SIDE_BUY 1 100 "GTC" false).

(** A client with balance 1 whose last tick for the symbol is 100. *)
Definition thin_client : ClientSimulation :=
  update_market_price (init 1 0) "BTCUSDT" 100.

End ClientSpec.

(** ** Sequences of [open] / [close] calls on one position *)

Inductive Call :=
| CallOpen (current_price position_size : Q) (side_arg : Z)
| CallClose (current_price : Q).

(** The driver of [envs/env_trading_base.py] ([_open], [_close]): each
    call receives the balance the previous one returned.  The result is
    the list of the balances returned, in call order. *)
Fixpoint run_calls (calls : list Call) (self : ManagerPosition) (balance : Q)
  : list Q :=
  match calls with
  | [] => []
  | CallOpen p s sd :: rest =>
    let '(self', (_, balance')) := open self p s balance sd in
    balance' :: run_calls rest self' balance'
  | CallClose p :: rest =>
    let '(self', (_, balance')) := close self p balance in
    balance' :: run_calls rest self' balance'
  end.


(** ** agents/manager_position.py : a run of ticks *)

(** [update] called once per tick with the prices of the ticks. *)
Definition updates (self : ManagerPosition) (prices : list Q) : ManagerPosition :=
  fold_left update prices self.

(** The side-specific PnL formula shared by [update] and [close]. *)
Definition pnl_at (self : ManagerPosition) (current_price : Q) : Q :=
  if Z.eqb (side self) 1
  then (current_price - entry_price self) * size self
  else (entry_price self - current_price) * size self.

(** ** envs/env_trading_base.py : [_open] and [_close] *)

Module Env.

(** The two attributes of [EnvTradingBase] that [_open] and [_close]
    read and write. *)
Record EnvTradingBase := mkEnv {
  balance : Q;
  position : ManagerPosition
}.

(** [_close(self, close_price)]: the environment after the call and the
    returned [realized_pnl]. *)
Definition _close (self : EnvTradingBase) (close_price : Q)
  : EnvTradingBase * Q :=
  let '(pos, (realized_pnl, bal)) :=
    close (position self) close_price (balance self) in
  (mkEnv bal pos, realized_pnl).

(** [_open(self, available_balance, side)]; [current_price] is the
    value of [self._current_price()].  The quotient
    [available_balance / current_price] is the source's for a price
    different from 0; at price 0 the source divides by zero, which the
    statements below exclude. *)
Definition _open (self : EnvTradingBase) (current_price available_balance : Q)
    (side_arg : Z) : EnvTradingBase * bool :=
  let position_size := available_balance / current_price in
  let '(pos, (ok, bal)) :=
    open (position self) current_price position_size (balance self)
         side_arg in
  (mkEnv bal pos, ok).

End Env.

(** ** agents/client_simulation.py : queries and risk figures *)

Module ClientQueries.
Import Client.

(** [symbol is None or order['symbol'] == symbol] *)
Definition symbol_matches (symbol : option string) (order : Order) : bool :=
  match symbol with
  | None => true
  | Some s => String.eqb (o_symbol order) s
  end.

(** [get_open_orders(symbol)] *)
Definition get_open_orders (self : ClientSimulation) (symbol : option string)
  : list Order :=
  List.filter
    (fun order =>
       symbol_matches symbol order
       && match status order with NEW => true | _ => false end)
    (orders self).

(** [get_order(symbol, order_id)]: the first order with the id and the
    symbol; [None] is [{}]. *)
Definition get_order (self : ClientSimulation) (symbol : string)
    (order_id : nat) : option Order :=
  List.find
    (fun order =>
       Nat.eqb (orderId order) order_id && String.eqb (o_symbol order) symbol)
    (orders self).

(** The Python slice [l[start:]]: a negative [start] counts from the
    end and is clipped at the front of the list. *)
Definition slice_from {A} (start : Z) (l : list A) : list A :=
  if (start <? 0)%Z
  then drop (Z.to_nat (Z.max 0 (Z.of_nat (length l) + start))) l
  else drop (Z.to_nat start) l.

(** [get_all_orders(symbol, limit, start_time, end_time)]: the tests
    [if start_time:] and [if end_time:] are false for [None] and for
    [0]. *)
Definition get_all_orders (self : ClientSimulation) (symbol : string)
    (limit : Z) (start_time end_time : option Z) : list Order :=
  let orders0 :=
    List.filter (fun order => String.eqb (o_symbol order) symbol)
                (orders self) in
  let orders1 :=
    match start_time with
    | Some t =>
      if Z.eqb t 0 then orders0
      else List.filter (fun order => (t <=? time order)%Z) orders0
    | None => orders0
    end in
  let orders2 :=
    match end_time with
    | Some t =>
      if Z.eqb t 0 then orders1
      else List.filter (fun order => (time order <=? t)%Z) orders1
    | None => orders1
    end in
  slice_from (- limit)%Z orders2.

(** [_calculate_unrealized_pnl(symbol)] *)
Definition _calculate_unrealized_pnl (self : ClientSimulation)
    (symbol : string) : Q :=
  match positions self !! symbol with
  | None => 0
  | Some position =>
    if Qeq_bool (h_size position) 0 then 0
    else
      let current_price :=
        default (h_entry_price position) (market_prices self !! symbol) in
      (current_price - h_entry_price position) * h_size position
  end.

(** The client with the two attributes that only [set_leverage] and
    [set_margin_type] create: [None] is an attribute not yet set. *)
Record ClientAccount := mkAccount {
  core : ClientSimulation;
  leverage : option Z;
  margin_type : option string
}.

(** [set_leverage(symbol, leverage)]: the client and the echoed
    [{'leverage': leverage}]. *)
Definition set_leverage (self : ClientAccount) (symbol : string) (lev : Z)
  : ClientAccount * Z :=
  (mkAccount (core self) (Some lev) (margin_type self), lev).

(** [set_margin_type(symbol, margin_type)] *)
Definition set_margin_type (self : ClientAccount) (symbol : string)
    (mt : string) : ClientAccount * string :=
  (mkAccount (core self) (leverage self) (Some mt), mt).

(** [_calculate_liquidation_price(symbol)]; [None] is the exception of
    the call: [AttributeError] when [self.leverage] was never set,
    [ZeroDivisionError] when it is 0.  Both can only arise after the
    early return for a missing or empty position. *)
Definition _calculate_liquidation_price (self : ClientAccount)
    (symbol : string) : option Q :=
  match positions (core self) !! symbol with
  | None => Some 0
  | Some position =>
    if Qeq_bool (h_size position) 0 then Some 0
    else
      let maintenance_margin_rate : Q := 0.004 in
      let entry_price := h_entry_price position in
      let size := h_size position in
      match leverage self with
      | None => None
      | Some lev =>
        if Z.eqb lev 0 then None
        else if Qltb 0 size
        then Some (entry_price
                   * (1 - 1 / inject_Z lev + maintenance_margin_rate))
        else Some (entry_price
                   * (1 + 1 / inject_Z lev - maintenance_margin_rate))
      end
  end.

End ClientQueries.

(** ** Sequences of calls on the client *)

Module ClientRun.
Import Client.

(** The calls a driver makes on the order path. *)
Inductive Op :=
| OpMarket (symbol side : string) (quantity : Q) (reduce_only : bool)
| OpLimit (symbol side : string) (quantity price : Q)
          (time_in_force : string) (reduce_only : bool)
| OpCancel (symbol : string) (order_id : nat)
| OpTick (symbol : string) (tick : Q).

(** The client after one call; the returned dictionary is dropped. *)
Definition step (self : ClientSimulation) (op : Op) : ClientSimulation :=
  match op with
  | OpMarket symbol sd q ro => fst (place_market_order self symbol sd q ro)
  | OpLimit symbol sd q p tif ro =>
    fst (place_limit_order self symbol sd q p tif ro)
  | OpCancel symbol order_id => fst (cancel_order self symbol order_id)
  | OpTick symbol tick => update_market_price self symbol tick
  end.

(** The client after the calls, in order. *)
Definition run (ops : list Op) (self : ClientSimulation) : ClientSimulation :=
  fold_left step ops self.

(** The commissions recorded on a list of trades. *)
Fixpoint trade_commissions (ts : list Trade) : Q :=
  match ts with
  | [] => 0
  | t :: ts => t_commission t + trade_commissions ts
  end.

(** The signed quantity the trades of [symbol] moved: a buy adds, any
    other side subtracts, as in [_update_position]. *)
Fixpoint net_quantity (symbol : string) (ts : list Trade) : Q :=
  match ts with
  | [] => 0
  | t :: ts =>
    (if String.eqb (t_symbol t) symbol
     then if String.eqb (t_side t) SIDE_BUY then t_quantity t
          else - t_quantity t
     else 0) + net_quantity symbol ts
  end.

(** The signed quantity a list of orders moves when each is filled: a
    buy adds its quantity, any other side subtracts it. *)
Fixpoint net_fill (os : list Order) : Q :=
  match os with
  | [] => 0
  | o :: os =>
    (if String.eqb (o_side o) SIDE_BUY then quantity o else - quantity o)
    + net_fill os
  end.

(** The number of orders with status ['FILLED']. *)
Definition filled_count (os : list Order) : nat :=
  length (List.filter
            (fun o => match status o with FILLED => true | _ => false end) os).

(** The fields of an order that no call changes. *)
Definition same_order (o o' : Order) : Prop :=
  orderId o' = orderId o /\ o_symbol o' = o_symbol o /\
  o_side o' = o_side o /\ o_type o' = o_type o /\
  quantity o' = quantity o /\ price o' = price o /\
  timeInForce o' = timeInForce o /\ reduceOnly o' = reduceOnly o /\
  time o' = time o.

(** The test of the loop of [cancel_order]. *)
Definition cancel_target (symbol : string) (order_id : nat) (o : Order) : Prop :=
  orderId o = order_id /\ o_symbol o = symbol.

(** The signed size held for a symbol; 0 when the symbol has no entry
    in [self.positions]. *)
Definition pos_size (self : ClientSimulation) (symbol : string) : Q :=
  h_size (default (mkHolding 0 0) (positions self !! symbol)).

(** [s'] is [s] after some fills: the trades of [s'] extend those of
    [s], and the balance and the sizes held moved by what the new
    trades record. *)
Definition booked (s s' : ClientSimulation) : Prop :=
  exists new,
    trades s' = trades s ++ new /\
    balance s' == balance s - trade_commissions new /\
    forall symbol,
      pos_size s' symbol == pos_size s symbol + net_quantity symbol new.

(** How one order may differ before and after some calls: only in its
    status, and only if it was ['NEW']. *)
Definition order_kept (o o' : Order) : Prop :=
  same_order o o' /\ (status o <> NEW -> o' = o).

(** The order list of [s'] is the one of [s] with kept orders,
    followed by the orders placed since. *)
Definition book_extends (s s' : ClientSimulation) : Prop :=
  exists kept placed,
    orders s' = kept ++ placed /\ Forall2 order_kept (orders s) kept.

(** Every token drawn so far is below the next draw, and no token was
    handed out twice. *)
Definition tokens (s : ClientSimulation) : list nat :=
  (orderId <$> orders s) ++ (t_id <$> trades s).

Definition tokens_fresh (s : ClientSimulation) : Prop :=
  (forall n, n ∈ tokens s -> (n < uuid_next s)%nat) /\ NoDup (tokens s).

End ClientRun.

(** * Properties *)

(** ** Comparison lemmas *)

Lemma Qltb_lt a b : Qltb a b = true <-> a < b.
Proof.
  unfold Qltb. rewrite negb_true_iff.
  split; intro H.
  - apply Qnot_le_lt. intro Hle. apply Qle_bool_iff in Hle. congruence.
  - destruct (Qle_bool b a) eqn:E; [|reflexivity].
    apply Qle_bool_iff in E. exfalso. apply (Qlt_not_le _ _ H E).
Qed.

Lemma Qltb_ge a b : Qltb a b = false <-> b <= a.
Proof.
  unfold Qltb. rewrite negb_false_iff. apply Qle_bool_iff.
Qed.

Lemma Qle_bool_false a b : Qle_bool a b = false <-> b < a.
Proof.
  rewrite <- Qltb_lt. unfold Qltb. rewrite negb_true_iff. reflexivity.
Qed.

Lemma Qeq_bool_false a b : Qeq_bool a b = false <-> ~ a == b.
Proof.
  split.
  - intros H Heq. apply Qeq_bool_iff in Heq. congruence.
  - intro H. destruct (Qeq_bool a b) eqn:E; [|reflexivity].
    apply Qeq_bool_iff in E. contradiction.
Qed.

(** The spec's scenario: balance 10000, open long 1 @ 100, tick 110,
    close @ 110. *)
Example scenario_open :
  let '(p, (ok, b)) := open init_position 100 1 10000 1 in
  ok = true /\ b == 9899.95 /\ entry_price p == 100 /\
  unrealized_pnl (update p 110) == 10 /\
  let '(_, (pnl, b')) := close (update p 110) 110 b in
  pnl == 10 /\ b' == 10009.895.
Proof. vm_compute. repeat split. Qed.

(** ** ManagerPosition: [open] *)

Section PositionOpen.

Variable self : ManagerPosition.
Variables current_price position_size balance : Q.
Variable side_arg : Z.

(** The case analysis of [open]: it rejects exactly when one of its
    two guards fires. *)
Lemma open_cases :
  (position_size <= epsilon \/
   balance < Fee.commission (position_size * current_price)
             + position_size * current_price) /\
  open self current_price position_size balance side_arg
    = (self, (false, balance))
  \/
  (epsilon < position_size /\
   Fee.commission (position_size * current_price)
     + position_size * current_price <= balance) /\
  open self current_price position_size balance side_arg
    = (mkPosition side_arg position_size current_price 0 1 0
         (position_size * current_price
          + Fee.commission (position_size * current_price)) 0 0,
       (true,
        balance - Fee.commission (position_size * current_price)
        - position_size * current_price)).
Proof.
  unfold open.
  destruct (Qle_bool position_size epsilon) eqn:Hsz.
  - left. split; [left; now apply Qle_bool_iff | reflexivity].
  - apply Qle_bool_false in Hsz.
    destruct (Qltb balance _) eqn:Hb.
    + left. split; [right; now apply Qltb_lt | reflexivity].
    + right. apply Qltb_ge in Hb. repeat split; assumption.
Qed.

Lemma open_accepted_state :
  fst (snd (open self current_price position_size balance side_arg)) = true ->
  open self current_price position_size balance side_arg
    = (mkPosition side_arg position_size current_price 0 1 0
         (position_size * current_price
          + Fee.commission (position_size * current_price)) 0 0,
       (true,
        balance - Fee.commission (position_size * current_price)
        - position_size * current_price))
  /\ epsilon < position_size
  /\ Fee.commission (position_size * current_price)
       + position_size * current_price <= balance.
Proof.
  intros Hok.
  destruct open_cases as [[_ E] | [[H1 H2] E]]; rewrite E in Hok |- *.
  - discriminate.
  - auto.
Qed.

Lemma open_balance_nonneg :
  0 <= balance ->
  0 <= snd (snd (open self current_price position_size balance side_arg)).
Proof.
  intros Hb.
  destruct open_cases as [[_ E] | [[H1 H2] E]]; rewrite E; simpl.
  - assumption.
  - lra.
Qed.

End PositionOpen.

(** ** ManagerPosition: [close] *)


Lemma close_floor self current_price balance :
  balance + size self * current_price
    - Fee.commission (size self * current_price) < 0 ->
  snd (close self current_price balance) = (- 0, 0).
Proof.
  intros H. apply Qltb_lt in H. unfold close. rewrite H. reflexivity.
Qed.

Lemma close_no_floor self current_price balance :
  0 <= balance + size self * current_price
         - Fee.commission (size self * current_price) ->
  snd (close self current_price balance)
  = (if Z.eqb (side self) 1
     then (current_price - entry_price self) * size self
     else (entry_price self - current_price) * size self,
     balance + size self * current_price
       - Fee.commission (size self * current_price)).
Proof.
  intros H. apply Qltb_ge in H. unfold close. rewrite H. reflexivity.
Qed.

Lemma close_balance_nonneg self current_price balance :
  0 <= snd (snd (close self current_price balance)).
Proof.
  destruct (Qlt_le_dec
              (balance + size self * current_price
               - Fee.commission (size self * current_price)) 0) as [H | H].
  - rewrite (close_floor _ _ _ H). simpl. lra.
  - rewrite (close_no_floor _ _ _ H). simpl. assumption.
Qed.

(** C7.  [open] returns [(False, balance)] with the balance it was given
    and leaves every field of the position as it was whenever
    [position_size <= 1e-10] or [balance < notional + commission] with
    [notional = position_size * current_price]; the function is total,
    so no exception stands for either rejection. *)
Theorem open_rejects_unchanged
    (self : ManagerPosition) (current_price position_size balance : Q)
    (side_arg : Z) :
  position_size <= epsilon \/
  balance < position_size * current_price
            + Fee.commission (position_size * current_price) ->
  open self current_price position_size balance side_arg
  = (self, (false, balance)).
Proof.
  intros H.
  destruct (open_cases self current_price position_size balance side_arg)
    as [[_ E] | [[H1 H2] E]]; [exact E|].
  exfalso. destruct H as [H | H]; lra.
Qed.

Lemma open_rejects_unchanged_witness :
  (1 <= epsilon \/ 50 < 1 * 100 + Fee.commission (1 * 100)) /\
  open init_position 100 1 50 1 = (init_position, (false, 50)).
Proof.
  split; [right; reflexivity|].
  apply (open_rejects_unchanged init_position 100 1 50 1).
  right. reflexivity.
Defined.

(** The long position of size 1 entered at 100 that the examples
    below start from. *)
Example long_1_at_100 :
  open init_position 100 1 10000 1
  = (mkPosition 1 1 100 0 1 0 (1 * 100 + Fee.commission (1 * 100)) 0 0,
     (true, 10000 - Fee.commission (1 * 100) - 1 * 100)).
Proof. reflexivity. Qed.

(** C1.  [close] on the flooring branch: the long of size 1 entered at
    100 is closed at 100 with a balance of -200.  The balance before the
    floor is -200 + 100 - 0.05 = -100.05; the code returns balance 0 and
    [realized_pnl = 0], because [balance = 0] is assigned before
    [realized_pnl = -balance]; the negated pre-floor balance would be
    100.05. *)
Theorem close_floor_reports_zero_pnl :
  let p := fst (open init_position 100 1 10000 1) in
  let pre_floor := -200 + size p * 100 - Fee.commission (size p * 100) in
  pre_floor == -100.05 /\
  snd (snd (close p 100 (-200))) == 0 /\
  fst (snd (close p 100 (-200))) == 0 /\
  ~ fst (snd (close p 100 (-200))) == - pre_floor.
Proof.
  vm_compute. repeat split; discriminate.
Qed.

(** In exact arithmetic, along every sequence of [open] and [close]
    calls that starts from a balance [>= 0], each call returns a balance
    [>= 0]: this is what the guard of [open] and the floor of [close]
    aim at.  Over binary64 the guard and the debit of [open] round
    differently; see [Binary64Facts]. *)
Theorem balance_never_negative
    (calls : list Call) (self : ManagerPosition) (balance : Q) :
  0 <= balance ->
  Forall (fun b => 0 <= b) (run_calls calls self balance).
Proof.
  revert self balance.
  induction calls as [|c calls IH]; intros self balance Hb; simpl.
  - constructor.
  - destruct c as [p s sd | p].
    + pose proof (open_balance_nonneg self p s balance sd Hb) as Hn.
      destruct (open self p s balance sd) as [self' [ok b']].
      simpl in Hn. constructor; [assumption | now apply IH].
    + pose proof (close_balance_nonneg self p balance) as Hn.
      destruct (close self p balance) as [self' [pnl b']].
      simpl in Hn. constructor; [assumption | now apply IH].
Qed.

Lemma balance_never_negative_witness :
  0 <= 10000 /\
  Forall (fun b => 0 <= b)
    (run_calls [CallOpen 100 1 1; CallOpen 100 1 1; CallClose (-500);
                CallClose 110]
               init_position 10000).
Proof.
  split; [discriminate|].
  apply (balance_never_negative
           [CallOpen 100 1 1; CallOpen 100 1 1; CallClose (-500);
            CallClose 110] init_position 10000).
  discriminate.
Defined.

(** ** The balance over binary64 *)

Module Binary64Facts.
Import PrimFloat.

(** [close] never returns a balance below 0, whatever it is given: the
    floor of the source holds in binary64 as well. *)
Lemma close_balance_not_negative
    (self : Binary64.ManagerPosition) (current_price balance : float) :
  (snd (snd (Binary64.close self current_price balance)) <? 0)%float = false.
Proof.
  unfold Binary64.close.
  set (b := (balance + Binary64.size self * current_price
             - Binary64.Fee_commission (Binary64.size self * current_price))%float).
  destruct (b <? 0)%float eqn:E; cbn [snd].
  - reflexivity.
  - exact E.
Qed.

(** A rejected [open] returns the balance it was given. *)
Lemma open_rejected_balance
    (self : Binary64.ManagerPosition) (current_price position_size balance : float)
    (side_arg : Z) :
  fst (snd (Binary64.open self current_price position_size balance side_arg))
  = false ->
  Binary64.open self current_price position_size balance side_arg
  = (self, (false, balance)).
Proof.
  unfold Binary64.open.
  destruct (_ <=? _)%float; [reflexivity|].
  destruct (_ <? _)%float; [reflexivity | discriminate].
Qed.

(** C3.  The balance does become negative: on the flat position,
    [open(728.0, 90.0, 65552.76, 1)] starts from a balance [>= 0], is
    accepted, and returns a balance below 0.  The amount is 65520.0 and
    the commission the binary64 value of 32.76; the guard compares the
    balance with the rounded sum [commission + amount] and does not
    fire, and the debit [balance - commission - amount], rounded after
    each subtraction, is about -7.28e-12. *)
Theorem open_returns_negative_balance :
  let balance := 65552.76%float in
  let r := Binary64.open Binary64.init_position 728 90 balance 1 in
  (0 <=? balance)%float = true /\
  (90 * 728)%float = 65520%float /\
  (balance <? Binary64.Fee_commission 65520 + 65520)%float = false /\
  fst (snd r) = true /\
  (snd (snd r) <? 0)%float = true /\
  snd (snd r) = (-7.2759576141834259e-12)%float.
Proof.
  vm_compute. repeat split.
Qed.

End Binary64Facts.

(** C4, as stated, fails: opening 1 unit at 100 and closing at 100
    reports a realized PnL of 0, not minus the two commissions
    (-0.05 - 0.05). *)
Lemma round_trip_pnl_not_commissions :
  fst (snd (open init_position 100 1 10000 1)) = true /\
  ~ fst (snd (close (fst (open init_position 100 1 10000 1)) 100
                    (snd (snd (open init_position 100 1 10000 1)))))
    == - Fee.commission (1 * 100) - Fee.commission (1 * 100).
Proof.
  vm_compute. split; [reflexivity | discriminate].
Qed.

(** C4, amended.  An accepted [open] at price [P] followed at once by
    [close] at the same [P] reports [realized_pnl = 0]: the price did not
    move and no commission enters the reported PnL.  The two commissions
    are charged to the balance: for [P >= 0] the balance after the close
    is the balance before the open minus the opening and the closing
    commission. *)
Theorem round_trip_pnl
    (self : ManagerPosition) (P S balance : Q) (side_arg : Z) :
  fst (snd (open self P S balance side_arg)) = true ->
  let p1 := fst (open self P S balance side_arg) in
  let b1 := snd (snd (open self P S balance side_arg)) in
  fst (snd (close p1 P b1)) == 0 /\
  (0 <= P ->
   snd (snd (close p1 P b1))
   == balance - Fee.commission (S * P) - Fee.commission (S * P)).
Proof.
  intros Hok.
  destruct (open_accepted_state _ _ _ _ _ Hok) as (E & HS & Hb).
  rewrite E. cbn [fst snd].
  set (p1 := mkPosition _ _ _ _ _ _ _ _ _).
  set (b1 := balance - _ - _).
  split.
  - destruct (Qlt_le_dec (b1 + size p1 * P - Fee.commission (size p1 * P)) 0)
      as [H | H].
    + rewrite (close_floor _ _ _ H). simpl. ring.
    + rewrite (close_no_floor _ _ _ H). simpl.
      destruct (Z.eqb side_arg 1); ring.
  - intros HP.
    assert (0 <= S * P) as Hsp.
    { apply Qmult_le_0_compat; [|assumption].
      apply Qlt_le_weak. apply Qlt_trans with epsilon; [reflexivity | assumption]. }
    assert (0 <= b1 + size p1 * P - Fee.commission (size p1 * P)) as H.
    { subst p1 b1. cbn [size]. unfold Fee.commission, Fee.Taker in *. lra. }
    rewrite (close_no_floor _ _ _ H). subst p1 b1. cbn [snd size]. ring.
Qed.

Lemma round_trip_pnl_witness :
  fst (snd (open init_position 100 1 10000 1)) = true /\
  fst (snd (close (fst (open init_position 100 1 10000 1)) 100
                  (snd (snd (open init_position 100 1 10000 1))))) == 0.
Proof.
  split; [reflexivity|].
  apply (round_trip_pnl init_position 100 1 10000 1). reflexivity.
Defined.

(** ** The flat invariant *)




(** ** ClientSimulation: the fill path *)

Module ClientFacts.
Import Client ClientSpec ClientRun.

Lemma crosses_spec tick o : crosses tick o = true <-> fills_at tick o.
Proof.
  unfold crosses, fills_at.
  rewrite orb_true_iff, !andb_true_iff, !String.eqb_eq, !Qle_bool_iff.
  reflexivity.
Qed.

Lemma is_resting_spec symbol o : is_resting symbol o = true <-> resting symbol o.
Proof.
  unfold is_resting, resting.
  rewrite !andb_true_iff, String.eqb_eq.
  destruct (status o), (o_type o); intuition congruence.
Qed.

Lemma eligible_spec symbol tick o :
  eligible symbol tick o = true <-> resting symbol o /\ fills_at tick o.
Proof.
  unfold eligible.
  rewrite andb_true_iff, is_resting_spec, crosses_spec. reflexivity.
Qed.

(** [_update_position] field by field. *)
Lemma update_position_balance self symbol sd q p :
  balance (_update_position self symbol sd q p)
  = balance self - _calculate_commission (p * q).
Proof. reflexivity. Qed.

(** One limit fill, field by field. *)
Lemma fill_balance symbol self o :
  balance (fill_limit_order symbol self o)
  = balance self - price o * quantity o * Fee.Taker.
Proof. reflexivity. Qed.

Lemma fill_positions symbol self o :
  positions (fill_limit_order symbol self o)
  = positions (_update_position self symbol (o_side o) (quantity o) (price o)).
Proof. reflexivity. Qed.

Lemma fill_trades symbol self o :
  trades (fill_limit_order symbol self o)
  = trades self
    ++ [mkTrade symbol (uuid_next self) (orderId o) (o_side o) (price o)
          (quantity o) (price o * quantity o * Fee.Taker) (clock self)].
Proof. reflexivity. Qed.

(** The loop of [_check_limit_orders]: the orders it leaves are the
    marked ones, and the client it leaves is the client after the
    fills of the eligible orders, in list order. *)
Lemma check_loop_spec symbol tick todo self :
  check_limit_orders_loop symbol tick todo self
  = (mark symbol tick <$> todo,
     fold_left (fill_limit_order symbol)
               (List.filter (eligible symbol tick) todo) self).
Proof.
  revert self. induction todo as [|o rest IH]; intros self; simpl.
  - reflexivity.
  - unfold mark at 1. fold (eligible symbol tick o).
    destruct (eligible symbol tick o); rewrite IH; reflexivity.
Qed.

(** The trades a run of fills appends, one per filled order and in
    the order of the fills. *)
Lemma fold_fill_trades symbol l self :
  exists new,
    trades (fold_left (fill_limit_order symbol) l self) = trades self ++ new /\
    Forall2 (trade_matches symbol) l new.
Proof.
  revert self. induction l as [|o l IH]; intros self; simpl.
  - exists []. rewrite app_nil_r. split; [reflexivity | constructor].
  - destruct (IH (fill_limit_order symbol self o)) as (new & E & HF).
    eexists (_ :: new). split.
    + rewrite E, fill_trades, <- app_assoc. reflexivity.
    + constructor; [|exact HF]. repeat split.
Qed.

Lemma fold_fill_balance symbol l self :
  balance (fold_left (fill_limit_order symbol) l self)
  == balance self - total_commission l.
Proof.
  revert self. induction l as [|o l IH]; intros self; simpl.
  - ring.
  - rewrite IH, fill_balance. ring.
Qed.

(** [List.filter] keeps the members that pass the test, and keeps
    them in the order of the list. *)
Lemma filter_lookup_keep {A} (f : A -> bool) (l : list A) j y :
  l !! j = Some y -> f y = true ->
  exists b, List.filter f l !! b = Some y.
Proof.
  intros Hj Hf.
  apply list_elem_of_lookup, list_elem_of_In, filter_In.
  split; [|assumption].
  apply list_elem_of_In, list_elem_of_lookup. eauto.
Qed.

Lemma filter_lookup_order {A} (f : A -> bool) (l : list A) i j x y :
  (i < j)%nat -> l !! i = Some x -> l !! j = Some y ->
  f x = true -> f y = true ->
  exists a b, (a < b)%nat /\
              List.filter f l !! a = Some x /\ List.filter f l !! b = Some y.
Proof.
  revert i j. induction l as [|z l IH]; intros i j Hij Hi Hj Hx Hy.
  - discriminate.
  - destruct j as [|j]; [lia|]. simpl in Hj.
    destruct i as [|i]; simpl in Hi.
    + injection Hi as ->. simpl. rewrite Hx.
      destruct (filter_lookup_keep f l j y Hj Hy) as [b Hb].
      exists 0%nat, (S b). repeat split; [lia | exact Hb].
    + destruct (IH i j ltac:(lia) Hi Hj Hx Hy) as (a & b & Hab & Ha & Hb).
      simpl. destruct (f z).
      * exists (S a), (S b). repeat split; [lia | exact Ha | exact Hb].
      * exists a, b. auto.
Qed.

(** The holding [_update_position] leaves for the symbol. *)
Lemma update_position_holding self symbol sd q p :
  let position := default (mkHolding 0 0) (positions self !! symbol) in
  let new_size :=
    if String.eqb sd SIDE_BUY then h_size position + q
    else h_size position - q in
  positions (_update_position self symbol sd q p) !! symbol
  = Some (mkHolding new_size
            (if Qle_bool (h_size position * new_size) 0
                || Qeq_bool new_size 0
             then if negb (Qeq_bool new_size 0) then p else 0
             else (Qabs (h_size position) * h_entry_price position + q * p)
                  / Qabs new_size)).
Proof.
  unfold _update_position.
  destruct (positions self !! symbol) as [h|] eqn:E;
    cbn [positions set_balance set_positions];
    rewrite lookup_insert_eq; [rewrite E | rewrite lookup_insert_eq];
    reflexivity.
Qed.

(** The size held after [_update_position], for every symbol. *)
Lemma update_position_size s symbol sd q p symbol' :
  pos_size (_update_position s symbol sd q p) symbol'
  = if String.eqb symbol symbol'
    then if String.eqb sd SIDE_BUY then pos_size s symbol + q
         else pos_size s symbol - q
    else pos_size s symbol'.
Proof.
  unfold pos_size.
  destruct (String.eqb symbol symbol') eqn:E.
  - apply String.eqb_eq in E. subst symbol'.
    rewrite update_position_holding. cbn [default h_size]. reflexivity.
  - apply String.eqb_neq in E.
    unfold _update_position. cbn [positions set_balance set_positions].
    rewrite lookup_insert_ne by assumption.
    destruct (positions s !! symbol); [reflexivity|].
    rewrite lookup_insert_ne by assumption. reflexivity.
Qed.

(** The whole position table after [_update_position]: only the entry
    of the symbol is written. *)
Lemma update_position_positions self symbol sd q p :
  let old := default (mkHolding 0 0) (positions self !! symbol) in
  let new_size :=
    if String.eqb sd SIDE_BUY then h_size old + q else h_size old - q in
  positions (_update_position self symbol sd q p)
  = <[symbol :=
        mkHolding new_size
          (if Qle_bool (h_size old * new_size) 0 || Qeq_bool new_size 0
           then if negb (Qeq_bool new_size 0) then p else 0
           else (Qabs (h_size old) * h_entry_price old + q * p)
                / Qabs new_size)]> (positions self).
Proof.
  unfold _update_position.
  destruct (positions self !! symbol) as [h|] eqn:E;
    cbn [positions set_balance set_positions].
  - rewrite E. reflexivity.
  - rewrite lookup_insert_eq, insert_insert_eq. reflexivity.
Qed.

(** The sizes held after a run of fills. *)
Lemma fold_fill_pos_size symbol l s sym :
  pos_size (fold_left (fill_limit_order symbol) l s) sym
  == pos_size s sym + (if String.eqb symbol sym then net_fill l else 0).
Proof.
  revert s. induction l as [|o l IH]; intros s; simpl.
  - destruct (String.eqb symbol sym); ring.
  - rewrite IH.
    assert (pos_size (fill_limit_order symbol s o) sym
            = pos_size (_update_position s symbol (o_side o) (quantity o)
                                         (price o)) sym) as ->
        by reflexivity.
    rewrite update_position_size.
    destruct (String.eqb symbol sym) eqn:E.
    + apply String.eqb_eq in E. subst sym.
      destruct (String.eqb (o_side o) SIDE_BUY); ring.
    + ring.
Qed.

Lemma fold_fill_other_positions symbol l s sym :
  symbol <> sym ->
  positions (fold_left (fill_limit_order symbol) l s) !! sym
  = positions s !! sym.
Proof.
  intros Hne. revert s. induction l as [|o l IH]; intros s; simpl;
    [reflexivity|].
  rewrite IH, fill_positions, update_position_positions. cbv zeta.
  now rewrite lookup_insert_ne.
Qed.

(** A tick, field by field. *)
Lemma update_market_price_spec self symbol tick :
  let fills := List.filter (eligible symbol tick) (orders self) in
  let after :=
    fold_left (fill_limit_order symbol) fills
      (set_market_prices (<[symbol := tick]> (market_prices self)) self) in
  update_market_price self symbol tick
  = set_orders (mark symbol tick <$> orders self) after.
Proof.
  unfold update_market_price, _check_limit_orders. cbn [orders set_market_prices].
  rewrite check_loop_spec. reflexivity.
Qed.

Lemma update_market_price_orders self symbol tick :
  orders (update_market_price self symbol tick)
  = mark symbol tick <$> orders self.
Proof. rewrite update_market_price_spec. reflexivity. Qed.

Lemma update_market_price_trades self symbol tick :
  exists new,
    trades (update_market_price self symbol tick) = trades self ++ new /\
    Forall2 (trade_matches symbol)
            (List.filter (eligible symbol tick) (orders self)) new.
Proof.
  rewrite update_market_price_spec. cbn [trades set_orders].
  apply (fold_fill_trades symbol _ (set_market_prices _ self)).
Qed.

(** C5.  On a tick [tick] for [symbol], a resting ['NEW'] limit order
    of that symbol becomes ['FILLED'] iff it is a buy with
    [tick <= price] or a sell with [tick >= price].  A filled order
    executes at its own limit price, not at the tick: its trade carries
    the limit price and quantity; the balance falls by
    [price * quantity * 0.0005] for each crossing order, at its limit
    price; the size held for the symbol moves by the signed quantities
    of the crossing orders and no other symbol is touched; when the
    order is the only one that crosses, the holding of the symbol is
    the one a fill at [price] leaves (entered at [price] itself when
    the symbol had no holding).  An order that does not cross stays as
    it was and contributes nothing to any of these, and when no resting
    order crosses, balance, positions, trades and orders are
    unchanged. *)
Theorem limit_order_fill_rule
    (self : ClientSimulation) (symbol : string) (tick : Q)
    (i : nat) (o : Order) :
  orders self !! i = Some o ->
  resting symbol o ->
  let self' := update_market_price self symbol tick in
  let crossing := List.filter (eligible symbol tick) (orders self) in
  let after := fold_left (fill_limit_order symbol) crossing self in
  (exists o', orders self' !! i = Some o' /\
              (status o' = FILLED <-> fills_at tick o)) /\
  (fills_at tick o ->
     orders self' !! i = Some (set_status FILLED o) /\
     exists t, t ∈ drop (length (trades self)) (trades self') /\
               trade_matches symbol o t) /\
  (~ fills_at tick o -> orders self' !! i = Some o /\ o ∉ crossing) /\
  (balance self' = balance after /\ positions self' = positions after /\
   trades self' = trades after) /\
  (crossing = [] ->
     balance self' = balance self /\ positions self' = positions self /\
     trades self' = trades self /\ orders self' = orders self) /\
  balance self' == balance self - total_commission crossing /\
  (forall sym,
      pos_size self' sym
      == pos_size self sym
         + (if String.eqb symbol sym then net_fill crossing else 0)) /\
  (forall sym, symbol <> sym -> positions self' !! sym = positions self !! sym) /\
  (crossing = [o] ->
     let old := default (mkHolding 0 0) (positions self !! symbol) in
     let new_size :=
       if String.eqb (o_side o) SIDE_BUY then h_size old + quantity o
       else h_size old - quantity o in
     let entry :=
       if Qle_bool (h_size old * new_size) 0 || Qeq_bool new_size 0
       then if negb (Qeq_bool new_size 0) then price o else 0
       else (Qabs (h_size old) * h_entry_price old + quantity o * price o)
            / Qabs new_size in
     balance self' = balance self - price o * quantity o * Fee.Taker /\
     positions self' = <[symbol := mkHolding new_size entry]> (positions self) /\
     (positions self !! symbol = None -> ~ quantity o == 0 ->
      exists h, positions self' !! symbol = Some h /\
                h_entry_price h = price o)).
Proof.
  intros Hi Hrest self' crossing after.
  assert (orders self' !! i = Some (mark symbol tick o)) as Hmark.
  { subst self'. rewrite update_market_price_orders, list_lookup_fmap, Hi.
    reflexivity. }
  assert (eligible symbol tick o = true <-> fills_at tick o) as Hel.
  { rewrite eligible_spec. tauto. }
  assert (status o = NEW) as Hnew by apply Hrest.
  assert (self' = set_orders (mark symbol tick <$> orders self)
                    (fold_left (fill_limit_order symbol) crossing
                       (set_market_prices
                          (<[symbol := tick]> (market_prices self)) self)))
    as Hspec by apply update_market_price_spec.
  assert (forall l s mp,
            fold_left (fill_limit_order symbol) l (set_market_prices mp s)
            = set_market_prices mp (fold_left (fill_limit_order symbol) l s))
    as Hcomm.
  { induction l as [|x l IHl]; intros s mp; simpl; [reflexivity|].
    rewrite <- IHl. reflexivity. }
  assert (balance self' = balance after /\ positions self' = positions after /\
          trades self' = trades after) as (HB & HP & HT).
  { rewrite Hspec, Hcomm. repeat split. }
  split; [|split; [|split; [|split; [|split; [|split; [|split; [|split]]]]]]].
  - exists (mark symbol tick o). split; [exact Hmark|].
    unfold mark. destruct (eligible symbol tick o) eqn:E.
    + simpl. split; [intros _; now apply Hel | reflexivity].
    + split; [rewrite Hnew; discriminate|].
      intros Hf. apply Hel in Hf. discriminate.
  - intros Hf. apply Hel in Hf. split.
    + rewrite Hmark. unfold mark. now rewrite Hf.
    + destruct (update_market_price_trades self symbol tick)
        as (new & Etr & HF).
      fold self' in Etr. rewrite Etr, drop_app_length.
      destruct (filter_lookup_keep _ _ _ _ Hi Hf) as [b Hb].
      destruct (Forall2_lookup_l _ _ _ _ _ HF Hb) as (t & Ht & Hm).
      exists t. split; [|exact Hm].
      apply list_elem_of_lookup. eauto.
  - intros Hnf. split.
    + rewrite Hmark. unfold mark.
      destruct (eligible symbol tick o); [|reflexivity].
      exfalso. apply Hnf, Hel. reflexivity.
    + intros Hin. apply list_elem_of_In, filter_In in Hin.
      apply Hnf, Hel, Hin.
  - auto.
  - intros Hnil. rewrite Hspec. fold crossing. rewrite Hnil.
    repeat split. cbn [orders set_orders].
    clear -Hnil. subst crossing.
    induction (orders self) as [|x l IHl]; [reflexivity|].
    simpl in Hnil. unfold mark at 1. rewrite fmap_cons.
    destruct (eligible symbol tick x); [discriminate|].
    f_equal. exact (IHl Hnil).
  - rewrite HB. apply fold_fill_balance.
  - intros sym.
    assert (pos_size self' sym = pos_size after sym) as ->
        by (unfold pos_size; now rewrite HP).
    apply fold_fill_pos_size.
  - intros sym Hne. rewrite HP. now apply fold_fill_other_positions.
  - intros Hone. cbv zeta.
    assert (after = fill_limit_order symbol self o) as Hafter
        by (subst after; rewrite Hone; reflexivity).
    rewrite HB, HP, Hafter, fill_balance, fill_positions,
      update_position_positions.
    cbv zeta. split; [reflexivity|]. split; [reflexivity|].
    intros Hnone Hq. rewrite lookup_insert_eq. eexists. split; [reflexivity|].
    rewrite Hnone. cbn [default h_size h_entry_price].
    assert (0 * (if String.eqb (o_side o) SIDE_BUY then 0 + quantity o
                 else 0 - quantity o) <= 0) as Hle
        by (rewrite Qmult_0_l; apply Qle_refl).
    apply Qle_bool_iff in Hle. rewrite Hle. cbn [orb].
    assert (Qeq_bool (if String.eqb (o_side o) SIDE_BUY then 0 + quantity o
                      else 0 - quantity o) 0 = false) as ->.
    { apply Qeq_bool_false. destruct (String.eqb (o_side o) SIDE_BUY);
        intros H0; apply Hq; lra. }
    reflexivity.
Qed.

Lemma limit_order_fill_rule_witness :
  let o := mkOrder 0 "BTCUSDT" SIDE_BUY ORDER_TYPE_LIMIT 1 100
                   (Some "GTC") false NEW 0 in
  orders one_buy_at_100 !! 0%nat = Some o /\
  resting "BTCUSDT" o /\
  orders (update_market_price one_buy_at_100 "BTCUSDT" 99) !! 0%nat
  = Some (set_status FILLED o) /\
  orders (update_market_price one_buy_at_100 "BTCUSDT" 101) !! 0%nat
  = Some o /\
  balance (update_market_price one_buy_at_100 "BTCUSDT" 99)
  = 1000 - 100 * 1 * Fee.Taker /\
  exists h,
    positions (update_market_price one_buy_at_100 "BTCUSDT" 99) !! "BTCUSDT"
    = Some h /\ h_entry_price h = 100.
Proof.
  intros o.
  assert (orders one_buy_at_100 !! 0%nat = Some o) as H0 by reflexivity.
  assert (resting "BTCUSDT" o) as H1 by (repeat split).
  split; [exact H0|]. split; [exact H1|]. split; [|split].
  - apply (limit_order_fill_rule one_buy_at_100 "BTCUSDT" 99 0 o H0 H1).
    left. split; [reflexivity | discriminate].
  - apply (limit_order_fill_rule one_buy_at_100 "BTCUSDT" 101 0 o H0 H1).
    intros [[_ H] | [H _]]; [apply H; reflexivity | discriminate H].
  - destruct (limit_order_fill_rule one_buy_at_100 "BTCUSDT" 99 0 o H0 H1)
      as (_ & _ & _ & _ & _ & _ & _ & _ & Hone).
    destruct (Hone eq_refl) as (Hb & _ & Hentry).
    split; [exact Hb|].
    apply Hentry; [reflexivity | discriminate].
Defined.

(** C6.  The trades a tick appends are those of the eligible orders
    in the order of [self.orders]: of two eligible orders, the one
    earlier in the list has its trade earlier, whatever their prices;
    and [place_limit_order] puts each new order behind all earlier
    ones, so list order is submission order. *)
Theorem limit_fills_in_submission_order
    (self : ClientSimulation) (symbol : string) (tick : Q) :
  (forall sym sd q p tif ro,
      orders (fst (place_limit_order self sym sd q p tif ro))
      = orders self ++ [snd (place_limit_order self sym sd q p tif ro)]) /\
  exists new,
    trades (update_market_price self symbol tick) = trades self ++ new /\
    Forall2 (trade_matches symbol)
            (List.filter (eligible symbol tick) (orders self)) new /\
    forall i j oi oj,
      (i < j)%nat ->
      orders self !! i = Some oi -> orders self !! j = Some oj ->
      resting symbol oi /\ fills_at tick oi ->
      resting symbol oj /\ fills_at tick oj ->
      exists a b ti tj,
        (a < b)%nat /\ new !! a = Some ti /\ new !! b = Some tj /\
        trade_matches symbol oi ti /\ trade_matches symbol oj tj.
Proof.
  split; [reflexivity|].
  destruct (update_market_price_trades self symbol tick) as (new & E & HF).
  exists new. split; [exact E|]. split; [exact HF|].
  intros i j oi oj Hij Hi Hj Hoi Hoj.
  apply eligible_spec in Hoi, Hoj.
  destruct (filter_lookup_order _ _ _ _ _ _ Hij Hi Hj Hoi Hoj)
    as (a & b & Hab & Ha & Hb).
  destruct (Forall2_lookup_l _ _ _ _ _ HF Ha) as (ti & Hti & Hmi).
  destruct (Forall2_lookup_l _ _ _ _ _ HF Hb) as (tj & Htj & Hmj).
  exists a, b, ti, tj. auto.
Qed.

(** Two resting buys, the later one at the better price: a tick at 90
    fills both, the earlier order first. *)
Example fifo_two_buys :
  let s0 := init 1000 0 in
  let s1 := fst (place_limit_order s0 "BTCUSDT" SIDE_BUY 1 100 "GTC" false) in
  let s2 := fst (place_limit_order s1 "BTCUSDT" SIDE_BUY 2 120 "GTC" false) in
  let s3 := update_market_price s2 "BTCUSDT" 90 in
  map t_orderId (trades s3) = [0%nat; 1%nat] /\
  map t_price (trades s3) = [100; 120] /\
  map status (orders s3) = [FILLED; FILLED].
Proof. vm_compute. repeat split. Qed.

(** ** ClientSimulation: market orders *)

Lemma place_market_order_no_price self symbol sd q ro :
  market_prices self !! symbol = None ->
  place_market_order self symbol sd q ro = (self, None).
Proof. intros H. unfold place_market_order. now rewrite H. Qed.

Lemma place_market_order_zero_price self symbol sd q ro p :
  market_prices self !! symbol = Some p -> p == 0 ->
  place_market_order self symbol sd q ro = (self, None).
Proof.
  intros H Hp. unfold place_market_order. rewrite H.
  apply Qeq_bool_iff in Hp. now rewrite Hp.
Qed.

Lemma place_market_order_filled self symbol sd q ro p :
  market_prices self !! symbol = Some p -> ~ p == 0 ->
  let o := mkOrder (uuid_next self) symbol sd ORDER_TYPE_MARKET q p None ro
                   FILLED (clock self) in
  let t := mkTrade symbol (S (uuid_next self)) (uuid_next self) sd p q
                   (p * q * Fee.Taker) (clock self) in
  let filled := _update_position self symbol sd q p in
  place_market_order self symbol sd q ro
  = (mkClient (balance filled) (positions filled) (orders self ++ [o])
              (trades self ++ [t]) (market_prices self)
              (S (S (uuid_next self))) (clock self),
     Some o).
Proof.
  intros H Hp. unfold place_market_order. rewrite H.
  apply Qeq_bool_false in Hp. rewrite Hp. reflexivity.
Qed.

(** C9, as stated, fails: after a tick at price 0 a price has been
    recorded for the symbol, and [place_market_order] still returns the
    empty result and creates nothing. *)
Lemma market_order_empty_at_recorded_zero_price :
  let self := update_market_price (init 1000 0) "BTCUSDT" 0 in
  market_prices self !! "BTCUSDT" = Some 0 /\
  place_market_order self "BTCUSDT" SIDE_BUY 1 false = (self, None).
Proof. split; reflexivity. Qed.

(** C9, amended.  [place_market_order] returns the empty result, and
    leaves the whole client (orders, trades, positions, balance) as it
    was, when no price is cached for the symbol or the cached price is
    zero; otherwise it returns an order with status ['FILLED'] at the
    latest cached price, already appended to [self.orders] together
    with its trade and its position update. *)
Theorem place_market_order_result
    (self : ClientSimulation) (symbol sd : string) (q : Q) (ro : bool) :
  match market_prices self !! symbol with
  | None => place_market_order self symbol sd q ro = (self, None)
  | Some p =>
    if Qeq_bool p 0
    then place_market_order self symbol sd q ro = (self, None)
    else exists self' o t,
        place_market_order self symbol sd q ro = (self', Some o) /\
        status o = FILLED /\ price o = p /\ o_type o = ORDER_TYPE_MARKET /\
        o_symbol o = symbol /\ o_side o = sd /\ quantity o = q /\
        reduceOnly o = ro /\
        orders self' = orders self ++ [o] /\
        trades self' = trades self ++ [t] /\
        t_orderId t = orderId o /\ t_price t = p /\ t_quantity t = q /\
        positions self' = positions (_update_position self symbol sd q p) /\
        balance self' = balance (_update_position self symbol sd q p)
  end.
Proof.
  destruct (market_prices self !! symbol) as [p|] eqn:E.
  - destruct (Qeq_bool p 0) eqn:Hp.
    + apply Qeq_bool_iff in Hp.
      now apply place_market_order_zero_price with p.
    + apply Qeq_bool_false in Hp.
      pose proof (place_market_order_filled self symbol sd q ro p E Hp) as H.
      cbv zeta in H. rewrite H.
      do 3 eexists. split; [reflexivity|]. repeat split.
  - now apply place_market_order_no_price.
Qed.

(** ** ClientSimulation: what a fill does to the balance *)

(** C10.  Every fill made by the client changes the balance by exactly
    minus [price * quantity * 0.0005]: [_update_position] does so for
    every symbol, side, quantity and price, with no test of the
    balance; a market order that is placed charges that amount at the
    cached price (for either value of [reduce_only]) and one that is
    refused charges nothing; a tick charges the sum of these amounts
    over the limit orders it fills; the notional is never moved.  A
    client with balance 1 is driven below zero by one market order, or
    by one reduce-only limit sell. *)
Theorem client_fill_charges_commission_only :
  Fee.Taker == 0.0005 /\
  (forall self symbol sd q p,
      balance (_update_position self symbol sd q p)
      = balance self - p * q * Fee.Taker) /\
  (forall self symbol sd q ro,
      match place_market_order self symbol sd q ro with
      | (self', Some o) =>
        market_prices self !! symbol = Some (price o) /\
        balance self' = balance self - price o * q * Fee.Taker
      | (self', None) => self' = self
      end) /\
  (forall self symbol tick,
      balance (update_market_price self symbol tick)
      == balance self
         - total_commission
             (List.filter (eligible symbol tick) (orders self))) /\
  (0 <= balance thin_client /\
   balance (fst (place_market_order thin_client "BTCUSDT" SIDE_BUY 100 false))
   < 0 /\
   balance (fst (place_market_order thin_client "BTCUSDT" SIDE_SELL 100 true))
   < 0 /\
   balance
     (update_market_price
        (fst (place_limit_order thin_client "BTCUSDT" SIDE_SELL 100 100
                                "GTC" true))
        "BTCUSDT" 100)
   < 0).
Proof.
  split; [reflexivity|].
  split; [reflexivity|].
  split.
  { intros self symbol sd q ro.
    destruct (market_prices self !! symbol) as [p|] eqn:E.
    - destruct (Qeq_bool p 0) eqn:Hp.
      + apply Qeq_bool_iff in Hp.
        rewrite (place_market_order_zero_price self symbol sd q ro p E Hp).
        reflexivity.
      + apply Qeq_bool_false in Hp.
        pose proof (place_market_order_filled self symbol sd q ro p E Hp) as H.
        cbv zeta in H. rewrite H. split; reflexivity.
    - rewrite (place_market_order_no_price self symbol sd q ro E).
      reflexivity. }
  split.
  { intros self symbol tick. rewrite update_market_price_spec.
    cbn [balance set_orders]. rewrite fold_fill_balance. reflexivity. }
  vm_compute. repeat split; discriminate.
Qed.

(** ** Scale-in *)

(** C2, as stated, fails: a second [open] of 1 at 200, same side, on
    the long of 1 entered at 100 is accepted and leaves
    [entry_price = 200], not the weighted average 150. *)
Lemma open_scale_in_not_weighted_average :
  let p1 := fst (open init_position 100 1 10000 1) in
  let b1 := snd (snd (open init_position 100 1 10000 1)) in
  side p1 = 1%Z /\ size p1 == 1 /\ entry_price p1 == 100 /\
  fst (snd (open p1 200 1 b1 1)) = true /\
  ~ entry_price (fst (open p1 200 1 b1 1))
    == (1 * 100 + 1 * 200) / (1 + 1).
Proof. vm_compute. repeat split; discriminate. Qed.

(** C2, amended.  An accepted [open] replaces the position: whatever
    was held, [entry_price] is the new price and [size] the new size.
    The size-weighted average is computed on the client's fill path:
    [_update_position] with a buy of [S2 > 0] at [P2] on a long holding
    of [S1 > 0] entered at [P1] leaves size [S1 + S2] and
    [entry_price = (S1*P1 + S2*P2) / (S1 + S2)]. *)
Theorem scale_in_entry_price
    (self : ClientSimulation) (symbol : string) (S1 P1 S2 P2 : Q) :
  positions self !! symbol = Some (mkHolding S1 P1) ->
  0 < S1 -> 0 < S2 ->
  (exists h,
      positions (_update_position self symbol SIDE_BUY S2 P2) !! symbol
      = Some h /\
      h_size h = S1 + S2 /\
      h_entry_price h == (S1 * P1 + S2 * P2) / (S1 + S2)) /\
  (forall (p : ManagerPosition) balance side_arg,
      fst (snd (open p P2 S2 balance side_arg)) = true ->
      entry_price (fst (open p P2 S2 balance side_arg)) = P2 /\
      size (fst (open p P2 S2 balance side_arg)) = S2).
Proof.
  intros Hpos H1 H2. split.
  - pose proof (update_position_holding self symbol SIDE_BUY S2 P2) as Hh.
    rewrite Hpos, String.eqb_refl in Hh.
    change (default _ (Some (mkHolding S1 P1))) with (mkHolding S1 P1) in Hh.
    cbn [h_size h_entry_price] in Hh. cbv zeta in Hh.
    assert (0 < S1 + S2) as Hn by lra.
    assert (0 < S1 * (S1 + S2)) as Hprod
        by (apply Qmult_lt_0_compat; assumption).
    assert (Qle_bool (S1 * (S1 + S2)) 0 = false) as Hle
        by (now apply Qle_bool_false).
    assert (Qeq_bool (S1 + S2) 0 = false) as Hne.
    { apply Qeq_bool_false. intros Heq. rewrite Heq in Hn.
      revert Hn. apply Qlt_irrefl. }
    rewrite Hle, Hne in Hh. cbn [orb] in Hh.
    eexists. split; [exact Hh|]. split; [reflexivity|].
    cbn [h_entry_price].
    rewrite (Qabs_pos S1) by now apply Qlt_le_weak.
    rewrite (Qabs_pos (S1 + S2)) by now apply Qlt_le_weak.
    reflexivity.
  - intros p balance side_arg Hok.
    destruct (open_accepted_state _ _ _ _ _ Hok) as (E & _).
    rewrite E. split; reflexivity.
Qed.

Lemma scale_in_entry_price_witness :
  let self := _update_position (init 1000 0) "BTCUSDT" SIDE_BUY 1 100 in
  positions self !! "BTCUSDT" = Some (mkHolding (0 + 1) 100) /\
  exists h,
    positions (_update_position self "BTCUSDT" SIDE_BUY 1 200) !! "BTCUSDT"
    = Some h /\
    h_size h = 0 + 1 + 1 /\
    h_entry_price h == ((0 + 1) * 100 + 1 * 200) / (0 + 1 + 1).
Proof.
  intros self.
  assert (positions self !! "BTCUSDT" = Some (mkHolding (0 + 1) 100)) as H
      by reflexivity.
  split; [exact H|].
  apply (scale_in_entry_price self "BTCUSDT" (0 + 1) 100 1 200 H);
    reflexivity.
Defined.

End ClientFacts.

(** * Further properties of the position manager *)

Section PositionTicks.

Lemma update_flat p price :
  side p = 0%Z ->
  update p price
  = mkPosition 0 0 0 0 0 (idle_time p + 1)%Z 0 (max_profit p) (max_loss p).
Proof. intros H. unfold update. rewrite H. reflexivity. Qed.

Lemma update_positioned p price :
  side p <> 0%Z ->
  update p price
  = mkPosition (side p) (size p) (entry_price p) (pnl_at p price)
      (holding_time p + 1)%Z 0 (capital p)
      (if Qltb (max_profit p) (pnl_at p price)
       then pnl_at p price else max_profit p)
      (if Qltb (max_profit p) (pnl_at p price) then max_loss p
       else if Qltb (pnl_at p price) (max_loss p)
            then pnl_at p price else max_loss p).
Proof.
  intros H. unfold update. apply Z.eqb_neq in H. rewrite H. reflexivity.
Qed.

Lemma updates_snoc p prices price :
  updates p (prices ++ [price]) = update (updates p prices) price.
Proof. unfold updates. rewrite fold_left_app. reflexivity. Qed.

(** The fields a run of ticks never changes on an open position. *)
Lemma updates_positioned_frame p prices :
  side p <> 0%Z ->
  side (updates p prices) = side p /\
  size (updates p prices) = size p /\
  entry_price (updates p prices) = entry_price p /\
  capital (updates p prices) = capital p.
Proof.
  intros Hs. induction prices as [|price prices IH] using rev_ind.
  - repeat split.
  - destruct IH as (I1 & I2 & I3 & I4).
    rewrite updates_snoc, update_positioned by congruence.
    cbn. auto.
Qed.

Lemma update_extrema_order (p : ManagerPosition) (price : Q) :
  side p <> 0%Z ->
  max_loss p <= max_profit p ->
  let p' := update p price in
  max_loss p' <= max_loss p /\
  max_profit p <= max_profit p' /\
  max_loss p' <= unrealized_pnl p' /\
  unrealized_pnl p' <= max_profit p'.
Proof.
  intros Hs Hlm p'. subst p'. rewrite update_positioned by assumption.
  cbn [unrealized_pnl max_profit max_loss].
  destruct (Qltb (max_profit p) (pnl_at p price)) eqn:E1.
  - apply Qltb_lt in E1. repeat split; lra.
  - apply Qltb_ge in E1.
    destruct (Qltb (pnl_at p price) (max_loss p)) eqn:E2.
    + apply Qltb_lt in E2. repeat split; lra.
    + apply Qltb_ge in E2. repeat split; lra.
Qed.

(** X1.  While [max_loss <= max_profit], a tick on an open position
    makes [max_profit] the larger of its old value and the new
    unrealized PnL and [max_loss] the smaller, so that afterwards
    [max_loss <= unrealized_pnl <= max_profit] (the [elif] of the source
    loses no update). *)
Theorem update_running_extrema (p : ManagerPosition) (price : Q) :
  side p <> 0%Z ->
  max_loss p <= max_profit p ->
  let p' := update p price in
  unrealized_pnl p' = pnl_at p price /\
  max_profit p' == Qmax (max_profit p) (pnl_at p price) /\
  max_loss p' == Qmin (max_loss p) (pnl_at p price) /\
  max_loss p' <= unrealized_pnl p' /\
  unrealized_pnl p' <= max_profit p'.
Proof.
  intros Hs Hlm p'. subst p'. rewrite update_positioned by assumption.
  cbn [unrealized_pnl max_profit max_loss].
  set (x := pnl_at p price).
  split; [reflexivity|].
  destruct (Qltb (max_profit p) x) eqn:E1.
  - apply Qltb_lt in E1.
    assert (max_loss p <= x) by lra.
    rewrite Q.max_r, Q.min_l by lra. repeat split; lra.
  - apply Qltb_ge in E1. rewrite Q.max_l by assumption.
    destruct (Qltb x (max_loss p)) eqn:E2.
    + apply Qltb_lt in E2. rewrite Q.min_r by lra. repeat split; lra.
    + apply Qltb_ge in E2. rewrite Q.min_l by assumption. repeat split; lra.
Qed.

Lemma update_running_extrema_witness :
  let p := fst (open init_position 100 1 10000 1) in
  side p <> 0%Z /\ max_loss p <= max_profit p /\
  max_profit (update p 110) == Qmax (max_profit p) (pnl_at p 110).
Proof.
  intros p.
  assert (side p <> 0%Z) as H1 by discriminate.
  assert (max_loss p <= max_profit p) as H2 by discriminate.
  split; [exact H1|]. split; [exact H2|].
  apply (update_running_extrema p 110 H1 H2).
Defined.

(** X2.  After an accepted [open] with a non-zero side and any run of
    ticks, the position still has the side, size and entry price of the
    open, [holding_time] is 1 plus the number of ticks, [idle_time] is
    0, and [max_loss <= 0 <= max_profit]. *)
Theorem open_then_ticks
    (p : ManagerPosition) (price sz balance : Q) (side_arg : Z)
    (prices : list Q) :
  side_arg <> 0%Z ->
  fst (snd (open p price sz balance side_arg)) = true ->
  let q := updates (fst (open p price sz balance side_arg)) prices in
  side q = side_arg /\ size q = sz /\ entry_price q = price /\
  holding_time q = (1 + Z.of_nat (length prices))%Z /\
  idle_time q = 0%Z /\
  max_loss q <= 0 /\ 0 <= max_profit q /\
  (prices <> [] -> max_loss q <= unrealized_pnl q <= max_profit q).
Proof.
  intros Hsd Hok.
  destruct (open_accepted_state _ _ _ _ _ Hok) as (E & _ & _).
  rewrite E. cbn [fst]. clear E Hok.
  set (p0 := mkPosition _ _ _ _ _ _ _ _ _).
  induction prices as [|pr prices IH] using rev_ind.
  - cbn. repeat split; try discriminate; try (intros H; contradiction).
  - cbv zeta in IH |- *.
    destruct IH as (I1 & I2 & I3 & I4 & I5 & I6 & I7 & _).
    rewrite updates_snoc.
    assert (side (updates p0 prices) <> 0%Z) as Hs by congruence.
    assert (max_loss (updates p0 prices) <= max_profit (updates p0 prices))
      as Hlm by lra.
    destruct (update_extrema_order _ pr Hs Hlm) as (U1 & U2 & U3 & U4).
    rewrite update_positioned in * by assumption.
    cbn [side size entry_price holding_time idle_time max_loss max_profit
         unrealized_pnl] in *.
    rewrite length_app, Nat2Z.inj_add. cbn [length].
    repeat split; try assumption; try lia; lra.
Qed.

Lemma open_then_ticks_witness :
  let q := updates (fst (open init_position 100 1 10000 (-1))) [90; 120] in
  fst (snd (open init_position 100 1 10000 (-1))) = true /\
  holding_time q = 3%Z /\ max_loss q <= 0 /\ 0 <= max_profit q.
Proof.
  assert (fst (snd (open init_position 100 1 10000 (-1))) = true) as H
      by reflexivity.
  split; [exact H|].
  pose proof (open_then_ticks init_position 100 1 10000 (-1) [90; 120]
                ltac:(discriminate) H) as (_ & _ & _ & H4 & _ & H6 & H7 & _).
  split; [exact H4|]. split; [exact H6 | exact H7].
Defined.

(** X3.  On a flat position every tick adds one to [idle_time] and
    keeps [holding_time] at 0: after [n >= 1] ticks the position has
    size, entry price, unrealized PnL and capital 0, [holding_time = 0]
    and [idle_time] grown by [n]; [max_profit] and [max_loss] are not
    touched. *)
Theorem flat_ticks (p : ManagerPosition) (prices : list Q) :
  side p = 0%Z ->
  let q := updates p prices in
  side q = 0%Z /\
  idle_time q = (idle_time p + Z.of_nat (length prices))%Z /\
  max_profit q = max_profit p /\ max_loss q = max_loss p /\
  (prices <> [] ->
   size q = 0 /\ entry_price q = 0 /\ unrealized_pnl q = 0 /\
   capital q = 0 /\ holding_time q = 0%Z).
Proof.
  intros Hs. induction prices as [|pr prices IH] using rev_ind.
  - cbn. repeat split; try assumption; try lia; contradiction.
  - cbv zeta in IH |- *. destruct IH as (I1 & I2 & I3 & I4 & _).
    rewrite updates_snoc, update_flat by assumption.
    cbn [side size entry_price holding_time idle_time max_loss max_profit
         unrealized_pnl capital].
    rewrite length_app, Nat2Z.inj_add. cbn [length].
    repeat split; try assumption; try lia.
Qed.

Lemma flat_ticks_witness :
  let p := fst (close (fst (open init_position 100 1 10000 1)) 110 9899.95) in
  side p = 0%Z /\ idle_time (updates p [1; 2; 3]) = 4%Z.
Proof.
  intros p.
  assert (side p = 0%Z) as H by reflexivity.
  split; [exact H|].
  apply (flat_ticks p [1; 2; 3] H).
Defined.

End PositionTicks.

Section PositionCash.

(** X4.  When the floor does not apply, [close] right after a tick at
    the same price realizes exactly the unrealized PnL that the tick
    reported, and credits [size * price] less the commission. *)
Theorem close_realizes_unrealized (p : ManagerPosition) (price balance : Q) :
  side p <> 0%Z ->
  0 <= balance + size p * price - Fee.commission (size p * price) ->
  snd (close (update p price) price balance)
  = (unrealized_pnl (update p price),
     balance + size p * price - Fee.commission (size p * price)).
Proof.
  intros Hs Hb.
  rewrite update_positioned by assumption.
  rewrite close_no_floor by exact Hb.
  reflexivity.
Qed.

Lemma close_realizes_unrealized_witness :
  let p := fst (open init_position 100 1 10000 1) in
  side p <> 0%Z /\
  fst (snd (close (update p 110) 110 9899.95)) = unrealized_pnl (update p 110).
Proof.
  intros p.
  assert (side p <> 0%Z) as H by discriminate.
  split; [exact H|].
  rewrite (close_realizes_unrealized p 110 9899.95 H); [reflexivity|].
  discriminate.
Defined.



(** X6.  The fee preview [commission(current_price)] is the fee that
    [close] at that price charges: on a position with a side, when the
    floor does not apply, [close] returns
    [balance + size*price - commission(price)]; on a flat position the
    preview is 0. *)
Theorem commission_previews_close (p : ManagerPosition) (price balance : Q) :
  (side p = 0%Z -> commission p price = 0) /\
  (side p <> 0%Z ->
   commission p price == Fee.commission (size p * price) /\
   (0 <= balance + size p * price - Fee.commission (size p * price) ->
    snd (snd (close p price balance))
    == balance + size p * price - commission p price)).
Proof.
  unfold commission. split.
  - intros ->. reflexivity.
  - intros Hs. apply Z.eqb_neq in Hs. rewrite Hs. cbn [orb].
    assert ((if Qeq_bool (size p) 0 then 0
             else Fee.commission (size p * price))
            == Fee.commission (size p * price)) as Hc.
    { destruct (Qeq_bool (size p) 0) eqn:E; [|reflexivity].
      apply Qeq_bool_iff in E. unfold Fee.commission. rewrite E. ring. }
    split; [exact Hc|].
    intros Hb. rewrite (close_no_floor _ _ _ Hb). cbn [snd].
    rewrite Hc. reflexivity.
Qed.

End PositionCash.

(** * The trading environment: [_open] and [_close] *)

Module EnvFacts.
Import Env.

Lemma env_open_unfold self current_price available_balance side_arg :
  _open self current_price available_balance side_arg
  = (mkEnv
       (snd (snd (open (position self) current_price
                       (available_balance / current_price)
                       (balance self) side_arg)))
       (fst (open (position self) current_price
                  (available_balance / current_price)
                  (balance self) side_arg)),
     fst (snd (open (position self) current_price
                    (available_balance / current_price)
                    (balance self) side_arg))).
Proof.
  unfold _open. destruct (open _ _ _ _ _) as [pos [ok bal]]. reflexivity.
Qed.

Lemma env_open_accept_bounds
    (self : EnvTradingBase) (current_price available_balance : Q)
    (side_arg : Z) :
  ~ current_price == 0 ->
  (snd (_open self current_price available_balance side_arg) = true ->
   epsilon < available_balance / current_price /\
   available_balance * (1 + Fee.Taker) <= balance self) /\
  (snd (_open self current_price available_balance side_arg) = false ->
   fst (_open self current_price available_balance side_arg) = self).
Proof.
  intros Hp. rewrite env_open_unfold. cbn [fst snd].
  assert (available_balance / current_price * current_price
          == available_balance) as Hamt by (field; assumption).
  destruct (open_cases (position self) current_price
              (available_balance / current_price) (balance self) side_arg)
    as [[Hrej E] | [[H1 H2] E]]; rewrite E; cbn [fst snd].
  - split; [discriminate|]. intros _. destruct self; reflexivity.
  - unfold Fee.commission in H2. rewrite Hamt in H2.
    split; [|discriminate]. intros _. split; [assumption | lra].
Qed.




(** X8.  Offering the whole balance is never accepted: for a balance
    [>= 0] and a price different from 0,
    [_open(available_balance = balance)] returns [False] and changes
    nothing, because the commission comes on top of the notional. *)
Theorem env_open_all_in_rejected
    (self : EnvTradingBase) (current_price : Q) (side_arg : Z) :
  0 <= balance self ->
  ~ current_price == 0 ->
  _open self current_price (balance self) side_arg = (self, false).
Proof.
  intros Hb Hp.
  destruct (env_open_accept_bounds self current_price (balance self)
              side_arg Hp) as (Hacc & Hrej).
  destruct (_open self current_price (balance self) side_arg)
    as [self' ok] eqn:E.
  cbn [fst snd] in *.
  destruct ok.
  - exfalso. destruct (Hacc eq_refl) as [Hsz Hle].
    unfold Fee.Taker in Hle.
    assert (balance self == 0) as Hz by lra.
    rewrite Hz in Hsz. unfold Qdiv in Hsz. rewrite Qmult_0_l in Hsz.
    revert Hsz. apply Qle_not_lt. discriminate.
  - rewrite (Hrej eq_refl). reflexivity.
Qed.

Lemma env_open_all_in_rejected_witness :
  0 <= 10000 /\ ~ 100 == 0 /\
  _open (mkEnv 10000 init_position) 100 10000 1
  = (mkEnv 10000 init_position, false).
Proof.
  assert (0 <= balance (mkEnv 10000 init_position)) as H1 by discriminate.
  assert (~ 100 == 0) as H2 by discriminate.
  split; [exact H1|]. split; [exact H2|].
  apply (env_open_all_in_rejected (mkEnv 10000 init_position) 100 1 H1 H2).
Defined.

End EnvFacts.

(** * Further properties of the simulation client *)

Module ClientBookFacts.
Import Client ClientSpec ClientQueries ClientRun ClientFacts.

(** ** [cancel_order] *)

Lemma cancel_target_spec symbol order_id o :
  Nat.eqb (orderId o) order_id && String.eqb (o_symbol o) symbol = true
  <-> cancel_target symbol order_id o.
Proof.
  unfold cancel_target.
  rewrite andb_true_iff, Nat.eqb_eq, String.eqb_eq. reflexivity.
Qed.

Lemma cancel_loop_spec symbol order_id (l : list Order) :
  match cancel_order_loop symbol order_id l with
  | (l', Some o') =>
    exists i o,
      l !! i = Some o /\ cancel_target symbol order_id o /\ status o = NEW /\
      o' = set_status CANCELED o /\ l' = <[i := o']> l /\
      forall j oj, (j < i)%nat -> l !! j = Some oj ->
                   cancel_target symbol order_id oj -> status oj <> NEW
  | (l', None) =>
    l' = l /\
    forall o, o ∈ l -> cancel_target symbol order_id o -> status o <> NEW
  end.
Proof.
  induction l as [|x l IH]; simpl.
  - split; [reflexivity|]. intros o Ho. inversion Ho.
  - destruct (Nat.eqb (orderId x) order_id && String.eqb (o_symbol x) symbol)
      eqn:Ht.
    + apply cancel_target_spec in Ht.
      destruct (status x) eqn:Hst.
      * exists 0%nat, x. repeat split; try assumption; try apply Ht.
        intros j oj Hj. lia.
      * destruct (cancel_order_loop symbol order_id l) as [l' [o'|]].
        -- destruct IH as (i & o & Hi & Hto & Hso & Ho' & Hl' & Hfirst).
           exists (S i), o. repeat split; try assumption; try apply Hto.
           ++ simpl. now rewrite Hl'.
           ++ intros j oj Hj Hlook Htj. destruct j as [|j].
              ** simpl in Hlook. injection Hlook as <-. congruence.
              ** simpl in Hlook. apply (Hfirst j oj); [lia | assumption..].
        -- destruct IH as [-> Hall]. split; [reflexivity|].
           intros o Ho Hto. apply elem_of_cons in Ho as [-> | Ho];
             [congruence | now apply Hall].
      * destruct (cancel_order_loop symbol order_id l) as [l' [o'|]].
        -- destruct IH as (i & o & Hi & Hto & Hso & Ho' & Hl' & Hfirst).
           exists (S i), o. repeat split; try assumption; try apply Hto.
           ++ simpl. now rewrite Hl'.
           ++ intros j oj Hj Hlook Htj. destruct j as [|j].
              ** simpl in Hlook. injection Hlook as <-. congruence.
              ** simpl in Hlook. apply (Hfirst j oj); [lia | assumption..].
        -- destruct IH as [-> Hall]. split; [reflexivity|].
           intros o Ho Hto. apply elem_of_cons in Ho as [-> | Ho];
             [congruence | now apply Hall].
    + assert (~ cancel_target symbol order_id x) as Hnt.
      { intros H. apply cancel_target_spec in H. congruence. }
      destruct (cancel_order_loop symbol order_id l) as [l' [o'|]].
      * destruct IH as (i & o & Hi & Hto & Hso & Ho' & Hl' & Hfirst).
        exists (S i), o. repeat split; try assumption; try apply Hto.
        -- simpl. now rewrite Hl'.
        -- intros j oj Hj Hlook Htj. destruct j as [|j].
           ++ simpl in Hlook. injection Hlook as <-. contradiction.
           ++ simpl in Hlook. apply (Hfirst j oj); [lia | assumption..].
      * destruct IH as [-> Hall]. split; [reflexivity|].
        intros o Ho Hto. apply elem_of_cons in Ho as [-> | Ho];
          [contradiction | now apply Hall].
Qed.

(** X9.  [cancel_order] returns the first order of the list with the
    id and the symbol that is still ['NEW'], now ['CANCELED'], and
    changes nothing but that status; when no such order exists
    (unknown id, other symbol, or an order already filled or canceled)
    it returns the empty result and leaves the client as it was. *)
Theorem cancel_order_outcome
    (self : ClientSimulation) (symbol : string) (order_id : nat) :
  match cancel_order self symbol order_id with
  | (self', Some o') =>
    exists i o,
      orders self !! i = Some o /\ cancel_target symbol order_id o /\
      status o = NEW /\ o' = set_status CANCELED o /\
      self' = set_orders (<[i := o']> (orders self)) self /\
      forall j oj, (j < i)%nat -> orders self !! j = Some oj ->
                   cancel_target symbol order_id oj -> status oj <> NEW
  | (self', None) =>
    self' = self /\
    forall o, o ∈ orders self -> cancel_target symbol order_id o ->
              status o <> NEW
  end.
Proof.
  unfold cancel_order.
  pose proof (cancel_loop_spec symbol order_id (orders self)) as H.
  destruct (cancel_order_loop symbol order_id (orders self)) as [l' [o'|]].
  - destruct H as (i & o & Hi & Ht & Hs & Ho & Hl & Hfirst).
    exists i, o. rewrite Hl. auto 10.
  - destruct H as [-> Hall]. split; [destruct self; reflexivity | exact Hall].
Qed.

(** ** Bookkeeping along a run of calls *)

Lemma trade_commissions_app a b :
  trade_commissions (a ++ b) == trade_commissions a + trade_commissions b.
Proof. induction a as [|t a IH]; simpl; [ring | rewrite IH; ring]. Qed.

Lemma net_quantity_app symbol a b :
  net_quantity symbol (a ++ b)
  == net_quantity symbol a + net_quantity symbol b.
Proof. induction a as [|t a IH]; simpl; [ring | rewrite IH; ring]. Qed.

Lemma booked_refl s : booked s s.
Proof.
  exists []. rewrite app_nil_r. split; [reflexivity|].
  split; [simpl; ring | intros; simpl; ring].
Qed.

Lemma booked_trans s1 s2 s3 : booked s1 s2 -> booked s2 s3 -> booked s1 s3.
Proof.
  intros (n1 & T1 & B1 & P1) (n2 & T2 & B2 & P2).
  exists (n1 ++ n2). split; [rewrite T2, T1, app_assoc; reflexivity|].
  split.
  - rewrite B2, B1, trade_commissions_app. ring.
  - intros symbol. rewrite P2, P1, net_quantity_app. ring.
Qed.

(** [booked] only looks at balance, positions and trades. *)
Lemma booked_fields s1 s1' s2 s2' :
  balance s1' = balance s1 -> positions s1' = positions s1 ->
  trades s1' = trades s1 ->
  balance s2' = balance s2 -> positions s2' = positions s2 ->
  trades s2' = trades s2 ->
  booked s1 s2 -> booked s1' s2'.
Proof.
  intros B1 P1 T1 B2 P2 T2 (new & T & B & P).
  exists new. unfold pos_size in *. rewrite B1, B2, P1, P2, T1, T2. auto.
Qed.

(** One fill: the position update and its trade record. *)
Lemma booked_fill s s' symbol sd q p t :
  balance s' = balance (_update_position s symbol sd q p) ->
  positions s' = positions (_update_position s symbol sd q p) ->
  trades s' = trades s ++ [t] ->
  t_symbol t = symbol -> t_side t = sd -> t_quantity t = q ->
  t_commission t = p * q * Fee.Taker ->
  booked s s'.
Proof.
  intros B P T Hsym Hsd Hq Hc. exists [t]. split; [exact T|]. split.
  - rewrite B, update_position_balance. simpl. rewrite Hc.
    unfold _calculate_commission. ring.
  - intros symbol'.
    assert (pos_size s' symbol'
            = pos_size (_update_position s symbol sd q p) symbol') as ->
        by (unfold pos_size; now rewrite P).
    rewrite update_position_size. simpl. rewrite Hsym, Hsd, Hq.
    destruct (String.eqb symbol symbol') eqn:E.
    + apply String.eqb_eq in E. subst symbol'.
      destruct (String.eqb sd SIDE_BUY); ring.
    + ring.
Qed.

Lemma booked_fold_fill symbol l s :
  booked s (fold_left (fill_limit_order symbol) l s).
Proof.
  revert s. induction l as [|o l IH]; intros s; simpl.
  - apply booked_refl.
  - eapply booked_trans; [|apply IH].
    eapply booked_fill; try reflexivity.
Qed.

Lemma fold_fill_set_market_prices symbol l mp s :
  fold_left (fill_limit_order symbol) l (set_market_prices mp s)
  = set_market_prices mp (fold_left (fill_limit_order symbol) l s).
Proof.
  revert s. induction l as [|o l IH]; intros s; simpl; [reflexivity|].
  rewrite <- IH. reflexivity.
Qed.

Lemma booked_step s op : booked s (step s op).
Proof.
  destruct op as [symbol sd q ro | symbol sd q p tif ro | symbol oid
                  | symbol tick]; cbn [step].
  - destruct (market_prices s !! symbol) as [p|] eqn:E.
    + destruct (Qeq_bool p 0) eqn:Hp.
      * apply Qeq_bool_iff in Hp.
        rewrite (place_market_order_zero_price s symbol sd q ro p E Hp).
        apply booked_refl.
      * apply Qeq_bool_false in Hp.
        pose proof (place_market_order_filled s symbol sd q ro p E Hp) as H.
        cbv zeta in H. rewrite H. cbn [fst].
        eapply booked_fill; reflexivity.
    + rewrite (place_market_order_no_price s symbol sd q ro E).
      apply booked_refl.
  - eapply booked_fields; [..|apply (booked_refl s)]; reflexivity.
  - unfold cancel_order.
    destruct (cancel_order_loop symbol oid (orders s)) as [l' r]. cbn [fst].
    eapply booked_fields; [..|apply (booked_refl s)]; reflexivity.
  - rewrite update_market_price_spec. cbv zeta.
    eapply booked_fields;
      [..|apply (booked_fold_fill symbol
                   (List.filter (eligible symbol tick) (orders s)) s)];
      first [reflexivity
            | rewrite fold_fill_set_market_prices; reflexivity].
Qed.

Lemma booked_run ops s : booked s (run ops s).
Proof.
  revert s. induction ops as [|op ops IH]; intros s; simpl.
  - apply booked_refl.
  - eapply booked_trans; [apply booked_step | apply IH].
Qed.

(** X10.  Whatever calls are made (market orders, limit orders,
    cancellations, ticks), the trades are only appended to and the
    balance goes down by exactly the commissions of the trades
    appended; from [__init__] on, the balance is the initial balance
    less the commissions of all recorded trades. *)
Theorem balance_reconciles_with_trades :
  (forall ops s,
      exists new,
        trades (run ops s) = trades s ++ new /\
        balance (run ops s) == balance s - trade_commissions new) /\
  (forall ops initial_balance clock0,
      balance (run ops (init initial_balance clock0))
      == initial_balance
         - trade_commissions (trades (run ops (init initial_balance clock0)))).
Proof.
  split.
  - intros ops s. destruct (booked_run ops s) as (new & T & B & _).
    exists new. auto.
  - intros ops b c. destruct (booked_run ops (init b c)) as (new & T & B & _).
    rewrite T, B. reflexivity.
Qed.

(** X11.  From [__init__] on, after any calls, the signed size held
    for each symbol is the sum of the quantities of the recorded trades
    of that symbol, buys counted positive and every other side
    negative (a symbol without an entry counts as size 0). *)
Theorem position_size_reconciles_with_trades
    (ops : list Op) (initial_balance : Q) (clock0 : Z) (symbol : string) :
  pos_size (run ops (init initial_balance clock0)) symbol
  == net_quantity symbol (trades (run ops (init initial_balance clock0))).
Proof.
  destruct (booked_run ops (init initial_balance clock0)) as (new & T & _ & P).
  rewrite T, P. unfold pos_size at 1. cbn [init positions trades].
  rewrite lookup_empty. cbn. ring.
Qed.

(** ** Orders and trades *)

Lemma filled_count_app a b :
  filled_count (a ++ b) = (filled_count a + filled_count b)%nat.
Proof. unfold filled_count. now rewrite List.filter_app, length_app. Qed.

Lemma filled_count_cancel symbol order_id l :
  filled_count (fst (cancel_order_loop symbol order_id l)) = filled_count l.
Proof.
  induction l as [|x l IH]; [reflexivity|]. simpl.
  destruct (Nat.eqb (orderId x) order_id && String.eqb (o_symbol x) symbol).
  - destruct (status x) eqn:Hst.
    + cbn [fst]. unfold filled_count. simpl. now rewrite Hst.
    + destruct (cancel_order_loop symbol order_id l) as [l' r].
      cbn [fst] in *. unfold filled_count in *. simpl. rewrite Hst.
      simpl. now rewrite IH.
    + destruct (cancel_order_loop symbol order_id l) as [l' r].
      cbn [fst] in *. unfold filled_count in *. simpl. rewrite Hst. exact IH.
  - destruct (cancel_order_loop symbol order_id l) as [l' r].
    cbn [fst] in *. unfold filled_count in *. simpl.
    destruct (status x); simpl; now rewrite IH.
Qed.

Lemma eligible_new symbol tick o : eligible symbol tick o = true -> status o = NEW.
Proof. intros H. apply eligible_spec in H. apply H. Qed.

Lemma filled_count_mark symbol tick l :
  filled_count (mark symbol tick <$> l)
  = (length (List.filter (eligible symbol tick) l) + filled_count l)%nat.
Proof.
  induction l as [|x l IH]; [reflexivity|].
  rewrite fmap_cons. unfold filled_count in *. simpl. unfold mark at 1.
  destruct (eligible symbol tick x) eqn:E.
  - rewrite (eligible_new _ _ _ E). simpl. now rewrite IH.
  - destruct (status x); simpl; rewrite IH; lia.
Qed.

Lemma fold_fill_trades_length symbol l s :
  length (trades (fold_left (fill_limit_order symbol) l s))
  = (length (trades s) + length l)%nat.
Proof.
  destruct (fold_fill_trades symbol l s) as (new & E & HF).
  rewrite E, length_app. apply Forall2_length in HF. lia.
Qed.

Lemma step_count s op :
  (length (trades (step s op)) + filled_count (orders s))%nat
  = (length (trades s) + filled_count (orders (step s op)))%nat.
Proof.
  destruct op as [symbol sd q ro | symbol sd q p tif ro | symbol oid
                  | symbol tick]; cbn [step].
  - destruct (market_prices s !! symbol) as [p|] eqn:E.
    + destruct (Qeq_bool p 0) eqn:Hp.
      * apply Qeq_bool_iff in Hp.
        now rewrite (place_market_order_zero_price s symbol sd q ro p E Hp).
      * apply Qeq_bool_false in Hp.
        pose proof (place_market_order_filled s symbol sd q ro p E Hp) as H.
        cbv zeta in H. rewrite H. cbn [fst trades orders].
        rewrite length_app, filled_count_app. cbn. lia.
    + now rewrite (place_market_order_no_price s symbol sd q ro E).
  - change (orders (fst (place_limit_order s symbol sd q p tif ro)))
      with (orders s ++ [snd (place_limit_order s symbol sd q p tif ro)]).
    change (trades (fst (place_limit_order s symbol sd q p tif ro)))
      with (trades s).
    rewrite filled_count_app. cbn. lia.
  - unfold cancel_order.
    pose proof (filled_count_cancel symbol oid (orders s)) as H.
    destruct (cancel_order_loop symbol oid (orders s)) as [l' r].
    cbn [fst trades orders set_orders] in *. lia.
  - rewrite update_market_price_spec. cbv zeta.
    cbn [trades orders set_orders].
    rewrite fold_fill_trades_length, filled_count_mark. cbn [trades set_market_prices].
    lia.
Qed.

(** X12.  From [__init__] on, after any calls, there is exactly one
    trade per order with status ['FILLED']: every fill (market or
    limit) records one trade, and nothing else does. *)
Theorem one_trade_per_filled_order
    (ops : list Op) (initial_balance : Q) (clock0 : Z) :
  length (trades (run ops (init initial_balance clock0)))
  = filled_count (orders (run ops (init initial_balance clock0))).
Proof.
  assert (forall ops s,
             (length (trades (run ops s)) + filled_count (orders s))%nat
             = (length (trades s) + filled_count (orders (run ops s)))%nat)
    as H.
  { clear. induction ops as [|op ops IH]; intros s; simpl; [lia|].
    pose proof (IH (step s op)). pose proof (step_count s op). lia. }
  specialize (H ops (init initial_balance clock0)). cbn in H. lia.
Qed.

(** ** Orders are only appended, and only a ['NEW'] order changes *)

Lemma order_kept_refl o : order_kept o o.
Proof. split; [repeat split | reflexivity]. Qed.

Lemma order_kept_trans o1 o2 o3 :
  order_kept o1 o2 -> order_kept o2 o3 -> order_kept o1 o3.
Proof.
  intros [S1 K1] [S2 K2]. split.
  - unfold same_order in *. intuition congruence.
  - intros Hn. rewrite <- (K1 Hn). apply K2. rewrite (K1 Hn). exact Hn.
Qed.

Lemma order_kept_status o st : status o = NEW -> order_kept o (set_status st o).
Proof. intros H. split; [repeat split | congruence]. Qed.

Lemma Forall2_order_kept_refl l : Forall2 order_kept l l.
Proof. apply Forall_Forall2_diag, Forall_forall. intros. apply order_kept_refl. Qed.

Lemma book_extends_refl s : book_extends s s.
Proof.
  exists (orders s), []. rewrite app_nil_r.
  split; [reflexivity | apply Forall2_order_kept_refl].
Qed.

Lemma book_extends_trans s1 s2 s3 :
  book_extends s1 s2 -> book_extends s2 s3 -> book_extends s1 s3.
Proof.
  intros (k1 & p1 & E1 & F1) (k2 & p2 & E2 & F2).
  rewrite E1 in F2. apply Forall2_app_inv_l in F2 as (ka & kb & Fa & Fb & ->).
  exists ka, (kb ++ p2). split; [now rewrite E2, app_assoc|].
  eapply Forall2_trans; [|exact F1|exact Fa].
  intros x y z. apply order_kept_trans.
Qed.

Lemma cancel_loop_kept symbol order_id l :
  Forall2 order_kept l (fst (cancel_order_loop symbol order_id l)).
Proof.
  induction l as [|x l IH]; simpl; [constructor|].
  destruct (Nat.eqb (orderId x) order_id && String.eqb (o_symbol x) symbol).
  - destruct (status x) eqn:Hst.
    + cbn [fst]. constructor;
        [now apply order_kept_status | apply Forall2_order_kept_refl].
    + destruct (cancel_order_loop symbol order_id l) as [l' r].
      constructor; [apply order_kept_refl | exact IH].
    + destruct (cancel_order_loop symbol order_id l) as [l' r].
      constructor; [apply order_kept_refl | exact IH].
  - destruct (cancel_order_loop symbol order_id l) as [l' r].
    constructor; [apply order_kept_refl | exact IH].
Qed.

Lemma mark_kept symbol tick l : Forall2 order_kept l (mark symbol tick <$> l).
Proof.
  apply Forall2_fmap_r, Forall_Forall2_diag, Forall_forall.
  intros o _. cbn. unfold mark.
  destruct (eligible symbol tick o) eqn:E.
  - apply order_kept_status. now apply eligible_new in E.
  - apply order_kept_refl.
Qed.

Lemma book_extends_step s op : book_extends s (step s op).
Proof.
  destruct op as [symbol sd q ro | symbol sd q p tif ro | symbol oid
                  | symbol tick]; cbn [step].
  - destruct (market_prices s !! symbol) as [p|] eqn:E.
    + destruct (Qeq_bool p 0) eqn:Hp.
      * apply Qeq_bool_iff in Hp.
        rewrite (place_market_order_zero_price s symbol sd q ro p E Hp).
        apply book_extends_refl.
      * apply Qeq_bool_false in Hp.
        pose proof (place_market_order_filled s symbol sd q ro p E Hp) as H.
        cbv zeta in H. rewrite H. cbn [fst].
        eexists (orders s), [_].
        split; [reflexivity | apply Forall2_order_kept_refl].
    + rewrite (place_market_order_no_price s symbol sd q ro E).
      apply book_extends_refl.
  - exists (orders s), [snd (place_limit_order s symbol sd q p tif ro)].
    split; [reflexivity | apply Forall2_order_kept_refl].
  - unfold cancel_order.
    pose proof (cancel_loop_kept symbol oid (orders s)) as H.
    destruct (cancel_order_loop symbol oid (orders s)) as [l' r].
    exists l', []. rewrite app_nil_r. split; [reflexivity | exact H].
  - rewrite update_market_price_spec. cbv zeta.
    exists (mark symbol tick <$> orders s), []. rewrite app_nil_r.
    split; [reflexivity | apply mark_kept].
Qed.

Lemma book_extends_run ops s : book_extends s (run ops s).
Proof.
  revert s. induction ops as [|op ops IH]; intros s; simpl.
  - apply book_extends_refl.
  - eapply book_extends_trans; [apply book_extends_step | apply IH].
Qed.

(** ** Market orders never rest *)

Lemma kept_market_filled (l l' : list Order) :
  Forall2 order_kept l l' ->
  (forall o, o ∈ l -> o_type o = ORDER_TYPE_MARKET -> status o = FILLED) ->
  (forall o, o ∈ l' -> o_type o = ORDER_TYPE_MARKET -> status o = FILLED).
Proof.
  intros HF Hl o' Ho' Hty.
  apply list_elem_of_lookup in Ho' as [i Hi].
  destruct (Forall2_lookup_r _ _ _ _ _ HF Hi) as (o & Hlo & [Hsame Hkeep]).
  assert (o ∈ l) as Hin by (apply list_elem_of_lookup; eauto).
  assert (o_type o = ORDER_TYPE_MARKET) as Hto.
  { destruct Hsame as (_ & _ & _ & Ht & _). congruence. }
  pose proof (Hl o Hin Hto) as Hst.
  rewrite Hkeep by congruence. exact Hst.
Qed.

Lemma market_filled_step s op :
  (forall o, o ∈ orders s -> o_type o = ORDER_TYPE_MARKET -> status o = FILLED) ->
  (forall o, o ∈ orders (step s op) ->
             o_type o = ORDER_TYPE_MARKET -> status o = FILLED).
Proof.
  intros Hs.
  destruct op as [symbol sd q ro | symbol sd q p tif ro | symbol oid
                  | symbol tick]; cbn [step].
  - destruct (market_prices s !! symbol) as [p|] eqn:E.
    + destruct (Qeq_bool p 0) eqn:Hp.
      * apply Qeq_bool_iff in Hp.
        now rewrite (place_market_order_zero_price s symbol sd q ro p E Hp).
      * apply Qeq_bool_false in Hp.
        pose proof (place_market_order_filled s symbol sd q ro p E Hp) as H.
        cbv zeta in H. rewrite H. cbn [fst orders].
        intros o Ho Hty. apply elem_of_app in Ho as [Ho | Ho].
        -- now apply Hs.
        -- apply list_elem_of_singleton in Ho. subst o. reflexivity.
    + now rewrite (place_market_order_no_price s symbol sd q ro E).
  - change (orders (fst (place_limit_order s symbol sd q p tif ro)))
      with (orders s ++ [snd (place_limit_order s symbol sd q p tif ro)]).
    intros o Ho Hty. apply elem_of_app in Ho as [Ho | Ho].
    + now apply Hs.
    + apply list_elem_of_singleton in Ho. subst o. discriminate Hty.
  - unfold cancel_order.
    pose proof (cancel_loop_kept symbol oid (orders s)) as H.
    destruct (cancel_order_loop symbol oid (orders s)) as [l' r].
    cbn [fst orders set_orders] in *.
    now apply (kept_market_filled (orders s) l').
  - rewrite update_market_price_orders.
    apply (kept_market_filled (orders s)); [apply mark_kept | exact Hs].
Qed.

(** X22.  From [__init__] on, after any calls, every market order in
    [self.orders] has status ['FILLED']: a market order never rests, so
    [get_open_orders] lists limit orders only. *)
Theorem market_orders_never_rest
    (ops : list Op) (initial_balance : Q) (clock0 : Z) :
  let s := run ops (init initial_balance clock0) in
  (forall o, o ∈ orders s -> o_type o = ORDER_TYPE_MARKET ->
             status o = FILLED) /\
  (forall symbol o, o ∈ get_open_orders s symbol ->
                    o_type o = ORDER_TYPE_LIMIT).
Proof.
  intros s.
  assert (forall o, o ∈ orders s -> o_type o = ORDER_TYPE_MARKET ->
                    status o = FILLED) as H.
  { assert (forall ops s0,
               (forall o, o ∈ orders s0 -> o_type o = ORDER_TYPE_MARKET ->
                          status o = FILLED) ->
               forall o, o ∈ orders (run ops s0) ->
                         o_type o = ORDER_TYPE_MARKET -> status o = FILLED)
      as Hrun.
    { clear. induction ops as [|op ops IH]; intros s0 H0; simpl;
        [exact H0|].
      apply IH. now apply market_filled_step. }
    apply (Hrun ops (init initial_balance clock0)).
    intros o Ho. inversion Ho. }
  split; [exact H|].
  intros symbol o Ho. unfold get_open_orders in Ho.
  apply list_elem_of_In, filter_In in Ho as [Ho Htest].
  apply list_elem_of_In in Ho.
  apply andb_true_iff in Htest as [_ Hst].
  destruct (o_type o) eqn:Hty; [|reflexivity].
  rewrite (H o Ho Hty) in Hst. discriminate.
Qed.

(** ** Tokens are fresh, so a placed order can be found again *)

Lemma fresh_lists_add_left (A B : list nat) (n : nat) :
  (forall x, x ∈ A ++ B -> (x < n)%nat) -> NoDup (A ++ B) ->
  (forall x, x ∈ (A ++ [n]) ++ B -> (x < S n)%nat) /\ NoDup ((A ++ [n]) ++ B).
Proof.
  intros Hlt Hnd.
  assert ((A ++ [n]) ++ B ≡ₚ n :: (A ++ B)) as Hp.
  { rewrite <- app_assoc. cbn. symmetry. apply Permutation_middle. }
  split.
  - intros x Hx. rewrite Hp in Hx. apply elem_of_cons in Hx as [-> | Hx];
      [lia | specialize (Hlt x Hx); lia].
  - rewrite Hp. apply NoDup_cons. split; [|exact Hnd].
    intros Hin. specialize (Hlt n Hin). lia.
Qed.

Lemma fresh_lists_add_right (A B : list nat) (n : nat) :
  (forall x, x ∈ A ++ B -> (x < n)%nat) -> NoDup (A ++ B) ->
  (forall x, x ∈ A ++ (B ++ [n]) -> (x < S n)%nat) /\ NoDup (A ++ (B ++ [n])).
Proof.
  intros Hlt Hnd.
  assert (A ++ (B ++ [n]) ≡ₚ n :: (A ++ B)) as Hp.
  { rewrite app_assoc. symmetry. apply Permutation_cons_append. }
  split.
  - intros x Hx. rewrite Hp in Hx. apply elem_of_cons in Hx as [-> | Hx];
      [lia | specialize (Hlt x Hx); lia].
  - rewrite Hp. apply NoDup_cons. split; [|exact Hnd].
    intros Hin. specialize (Hlt n Hin). lia.
Qed.

Lemma tokens_fresh_fill symbol s o :
  tokens_fresh s -> tokens_fresh (fill_limit_order symbol s o).
Proof.
  intros [Hlt Hnd]. unfold tokens_fresh, tokens in *.
  rewrite fill_trades.
  change (orders (fill_limit_order symbol s o)) with (orders s).
  change (uuid_next (fill_limit_order symbol s o)) with (S (uuid_next s)).
  rewrite fmap_app. cbn [fmap list_fmap t_id].
  now apply fresh_lists_add_right.
Qed.

Lemma tokens_fresh_fold symbol l s :
  tokens_fresh s -> tokens_fresh (fold_left (fill_limit_order symbol) l s).
Proof.
  revert s. induction l as [|o l IH]; intros s H; simpl; [exact H|].
  apply IH, tokens_fresh_fill, H.
Qed.

Lemma fold_fill_orders symbol l s :
  orders (fold_left (fill_limit_order symbol) l s) = orders s.
Proof.
  revert s. induction l as [|o l IH]; intros s; simpl;
    [reflexivity | now rewrite IH].
Qed.

Lemma mark_ids symbol tick (l : list Order) :
  orderId <$> (mark symbol tick <$> l) = orderId <$> l.
Proof.
  rewrite <- list_fmap_compose. apply list_fmap_ext. intros _ o _.
  cbn. unfold mark. destruct (eligible symbol tick o); reflexivity.
Qed.

Lemma cancel_loop_ids symbol order_id l :
  orderId <$> fst (cancel_order_loop symbol order_id l) = orderId <$> l.
Proof.
  induction l as [|x l IH]; [reflexivity|]. simpl.
  destruct (Nat.eqb (orderId x) order_id && String.eqb (o_symbol x) symbol).
  - destruct (status x).
    + reflexivity.
    + destruct (cancel_order_loop symbol order_id l) as [l' r].
      cbn [fst] in *. now rewrite !fmap_cons, IH.
    + destruct (cancel_order_loop symbol order_id l) as [l' r].
      cbn [fst] in *. now rewrite !fmap_cons, IH.
  - destruct (cancel_order_loop symbol order_id l) as [l' r].
    cbn [fst] in *. now rewrite !fmap_cons, IH.
Qed.

Lemma tokens_fresh_step s op : tokens_fresh s -> tokens_fresh (step s op).
Proof.
  intros Hf.
  destruct op as [symbol sd q ro | symbol sd q p tif ro | symbol oid
                  | symbol tick]; cbn [step].
  - destruct (market_prices s !! symbol) as [p|] eqn:E.
    + destruct (Qeq_bool p 0) eqn:Hp.
      * apply Qeq_bool_iff in Hp.
        now rewrite (place_market_order_zero_price s symbol sd q ro p E Hp).
      * apply Qeq_bool_false in Hp.
        pose proof (place_market_order_filled s symbol sd q ro p E Hp) as H.
        cbv zeta in H. rewrite H. cbn [fst].
        destruct Hf as [Hlt Hnd]. unfold tokens_fresh, tokens in *.
        cbn [orders trades uuid_next].
        rewrite !fmap_app. cbn [fmap list_fmap orderId t_id].
        destruct (fresh_lists_add_left _ _ _ Hlt Hnd) as [Hlt1 Hnd1].
        now apply fresh_lists_add_right.
    + now rewrite (place_market_order_no_price s symbol sd q ro E).
  - destruct Hf as [Hlt Hnd]. unfold tokens_fresh, tokens in *.
    change (orders (fst (place_limit_order s symbol sd q p tif ro)))
      with (orders s ++ [snd (place_limit_order s symbol sd q p tif ro)]).
    change (trades (fst (place_limit_order s symbol sd q p tif ro)))
      with (trades s).
    change (uuid_next (fst (place_limit_order s symbol sd q p tif ro)))
      with (S (uuid_next s)).
    rewrite fmap_app. cbn [fmap list_fmap].
    now apply fresh_lists_add_left.
  - unfold cancel_order.
    pose proof (cancel_loop_ids symbol oid (orders s)) as H.
    destruct (cancel_order_loop symbol oid (orders s)) as [l' r].
    cbn [fst] in *. unfold tokens_fresh, tokens in *.
    cbn [orders trades uuid_next set_orders]. now rewrite H.
  - rewrite update_market_price_spec. cbv zeta.
    rewrite fold_fill_set_market_prices.
    pose proof (tokens_fresh_fold symbol
                  (List.filter (eligible symbol tick) (orders s)) s Hf) as H.
    unfold tokens_fresh, tokens in *.
    cbn [orders trades uuid_next set_orders set_market_prices].
    rewrite mark_ids. rewrite fold_fill_orders in H. exact H.
Qed.

Lemma tokens_fresh_run ops s : tokens_fresh s -> tokens_fresh (run ops s).
Proof.
  revert s. induction ops as [|op ops IH]; intros s H; simpl; [exact H|].
  apply IH, tokens_fresh_step, H.
Qed.

Lemma tokens_fresh_init b c : tokens_fresh (init b c).
Proof.
  split; [intros n Hn; inversion Hn | constructor].
Qed.

Lemma find_last_only {A} (f : A -> bool) (l : list A) (x : A) :
  (forall y, y ∈ l -> f y = false) -> f x = true ->
  List.find f (l ++ [x]) = Some x.
Proof.
  intros Hl Hx. induction l as [|y l IH]; simpl.
  - now rewrite Hx.
  - rewrite (Hl y) by (left). apply IH. intros z Hz. apply Hl. now right.
Qed.

Lemma find_none {A} (f : A -> bool) (l : list A) :
  (forall y, y ∈ l -> f y = false) -> List.find f l = None.
Proof.
  intros Hl. induction l as [|y l IH]; simpl; [reflexivity|].
  rewrite (Hl y) by (left). apply IH. intros z Hz. apply Hl. now right.
Qed.

Lemma order_id_below s o :
  tokens_fresh s -> o ∈ orders s -> (orderId o < uuid_next s)%nat.
Proof.
  intros [Hlt _] Ho. apply Hlt. unfold tokens.
  apply elem_of_app. left. apply list_elem_of_fmap. eauto.
Qed.

(** X14.  With [uuid4] a source of fresh tokens, on every client
    reached from [__init__]: an order just placed, limit or market, is
    what [get_order] returns for its id and symbol; and an id that was
    never handed out gets the empty result. *)
Theorem get_order_finds_placed_order
    (ops : list Op) (initial_balance : Q) (clock0 : Z) :
  let s := run ops (init initial_balance clock0) in
  (forall symbol sd q p tif ro,
      get_order (fst (place_limit_order s symbol sd q p tif ro)) symbol
                (orderId (snd (place_limit_order s symbol sd q p tif ro)))
      = Some (snd (place_limit_order s symbol sd q p tif ro))) /\
  (forall symbol sd q ro,
      match place_market_order s symbol sd q ro with
      | (s', Some o) => get_order s' symbol (orderId o) = Some o
      | (s', None) => True
      end) /\
  (forall symbol order_id,
      (uuid_next s <= order_id)%nat -> get_order s symbol order_id = None).
Proof.
  intros s.
  assert (tokens_fresh s) as Hf
      by (apply tokens_fresh_run, tokens_fresh_init).
  assert (forall o symbol, o ∈ orders s ->
            Nat.eqb (orderId o) (uuid_next s)
            && String.eqb (o_symbol o) symbol = false) as Hnew.
  { intros o symbol Ho. apply andb_false_iff. left. apply Nat.eqb_neq.
    pose proof (order_id_below s o Hf Ho). lia. }
  split; [|split].
  - intros symbol sd q p tif ro. unfold get_order.
    change (orders (fst (place_limit_order s symbol sd q p tif ro)))
      with (orders s ++ [snd (place_limit_order s symbol sd q p tif ro)]).
    apply find_last_only.
    + intros o Ho. apply (Hnew o symbol Ho).
    + cbn. now rewrite Nat.eqb_refl, String.eqb_refl.
  - intros symbol sd q ro.
    destruct (market_prices s !! symbol) as [p|] eqn:E.
    + destruct (Qeq_bool p 0) eqn:Hp.
      * apply Qeq_bool_iff in Hp.
        now rewrite (place_market_order_zero_price s symbol sd q ro p E Hp).
      * apply Qeq_bool_false in Hp.
        pose proof (place_market_order_filled s symbol sd q ro p E Hp) as H.
        cbv zeta in H. rewrite H. unfold get_order. cbn [orders orderId].
        apply find_last_only.
        -- intros o Ho. apply (Hnew o symbol Ho).
        -- cbn. now rewrite Nat.eqb_refl, String.eqb_refl.
    + now rewrite (place_market_order_no_price s symbol sd q ro E).
  - intros symbol order_id Hge. unfold get_order. apply find_none.
    intros o Ho. apply andb_false_iff. left. apply Nat.eqb_neq.
    pose proof (order_id_below s o Hf Ho). lia.
Qed.

(** ** A filled or canceled order is final *)

Lemma kept_lookup s s' i o :
  book_extends s s' -> orders s !! i = Some o ->
  exists o', orders s' !! i = Some o' /\ order_kept o o'.
Proof.
  intros (kept & placed & E & HF) Hi.
  destruct (Forall2_lookup_l _ _ _ _ _ HF Hi) as (o' & Ho' & Hk).
  exists o'. split; [|exact Hk]. rewrite E. now apply lookup_app_l_Some.
Qed.

Lemma step_trades_extend s op :
  exists new, trades (step s op) = trades s ++ new.
Proof.
  destruct (booked_step s op) as (new & T & _). eauto.
Qed.

Lemma order_ids_distinct s i j o x :
  tokens_fresh s -> orders s !! i = Some o -> orders s !! j = Some x ->
  orderId x = orderId o -> i = j.
Proof.
  intros [_ Hnd] Hi Hj Hid. unfold tokens in Hnd.
  apply NoDup_app in Hnd as (Hnd & _ & _).
  apply (NoDup_lookup _ i j (orderId o) Hnd).
  - now rewrite list_lookup_fmap, Hi.
  - rewrite list_lookup_fmap, Hj. cbn. now rewrite Hid.
Qed.

(** One call records no trade for an order that is not ['NEW']. *)
Lemma step_no_trade_for_final s op i o :
  tokens_fresh s -> orders s !! i = Some o -> status o <> NEW ->
  forall t, t ∈ drop (length (trades s)) (trades (step s op)) ->
            t_orderId t <> orderId o.
Proof.
  intros Hf Hi Hst t Ht.
  assert (o ∈ orders s) as Hin by (apply list_elem_of_lookup; eauto).
  pose proof (order_id_below s o Hf Hin) as Hlt.
  destruct op as [symbol sd q ro | symbol sd q p tif ro | symbol oid
                  | symbol tick]; cbn [step] in Ht.
  - destruct (market_prices s !! symbol) as [p|] eqn:E.
    + destruct (Qeq_bool p 0) eqn:Hp.
      * apply Qeq_bool_iff in Hp.
        rewrite (place_market_order_zero_price s symbol sd q ro p E Hp) in Ht.
        cbn [fst] in Ht. rewrite drop_all in Ht. inversion Ht.
      * apply Qeq_bool_false in Hp.
        pose proof (place_market_order_filled s symbol sd q ro p E Hp) as H.
        cbv zeta in H. rewrite H in Ht. cbn [fst trades] in Ht.
        rewrite drop_app_length in Ht.
        apply list_elem_of_singleton in Ht. subst t. cbn [t_orderId]. lia.
    + rewrite (place_market_order_no_price s symbol sd q ro E) in Ht.
      cbn [fst] in Ht. rewrite drop_all in Ht. inversion Ht.
  - change (trades (fst (place_limit_order s symbol sd q p tif ro)))
      with (trades s) in Ht.
    rewrite drop_all in Ht. inversion Ht.
  - unfold cancel_order in Ht.
    destruct (cancel_order_loop symbol oid (orders s)) as [l' r].
    cbn [fst trades set_orders] in Ht. rewrite drop_all in Ht. inversion Ht.
  - destruct (update_market_price_trades s symbol tick) as (new & E & HF).
    rewrite E, drop_app_length in Ht.
    apply list_elem_of_lookup in Ht as [k Hk].
    destruct (Forall2_lookup_r _ _ _ _ _ HF Hk) as (x & Hx & Hm).
    assert (x ∈ List.filter (eligible symbol tick) (orders s)) as Hxin
        by (apply list_elem_of_lookup; eauto).
    apply list_elem_of_In, filter_In in Hxin as [Hxin Hel].
    apply list_elem_of_In, list_elem_of_lookup in Hxin as [j Hj].
    destruct Hm as (Hid & _). rewrite Hid. intros Heq.
    pose proof (order_ids_distinct s i j o x Hf Hi Hj Heq) as <-.
    assert (x = o) by congruence. subst x.
    apply Hst. now apply eligible_new in Hel.
Qed.

Lemma run_no_trade_for_final ops s i o :
  tokens_fresh s -> orders s !! i = Some o -> status o <> NEW ->
  forall t, t ∈ drop (length (trades s)) (trades (run ops s)) ->
            t_orderId t <> orderId o.
Proof.
  revert s. induction ops as [|op ops IH]; intros s Hf Hi Hst t Ht.
  - cbn in Ht. rewrite drop_all in Ht. inversion Ht.
  - cbn [run fold_left] in Ht. fold (run ops (step s op)) in Ht.
    destruct (step_trades_extend s op) as (new1 & E1).
    destruct (booked_run ops (step s op)) as (new2 & E2 & _).
    destruct (kept_lookup s (step s op) i o (book_extends_step s op) Hi)
      as (o' & Ho' & [_ Hk]).
    rewrite (Hk Hst) in Ho'.
    rewrite E2, E1, <- app_assoc, drop_app_length in Ht.
    apply elem_of_app in Ht as [Ht | Ht].
    + apply (step_no_trade_for_final s op i o Hf Hi Hst).
      now rewrite E1, drop_app_length.
    + apply (IH (step s op) (tokens_fresh_step s op Hf) Ho' Hst).
      now rewrite E2, drop_app_length.
Qed.

(** X13.  Whatever calls follow, an order keeps its place in
    [self.orders] and all its fields except the status, and an order
    that is ['FILLED'] or ['CANCELED'] is never changed again.  On a
    client whose tokens are distinct and below the next draw (as they
    are on every client reached from [__init__]), no trade recorded by
    the later calls carries the id of such an order: no later tick
    fills it a second time. *)
Theorem terminal_orders_are_final
    (ops : list Op) (s : ClientSimulation) (i : nat) (o : Order) :
  orders s !! i = Some o ->
  (exists o',
      orders (run ops s) !! i = Some o' /\
      same_order o o' /\
      (status o <> NEW -> o' = o)) /\
  (tokens_fresh s -> status o <> NEW ->
   forall t, t ∈ drop (length (trades s)) (trades (run ops s)) ->
             t_orderId t <> orderId o) /\
  (forall ops0 initial_balance clock0,
      s = run ops0 (init initial_balance clock0) -> tokens_fresh s).
Proof.
  intros Hi. split; [|split].
  - destruct (kept_lookup s (run ops s) i o (book_extends_run ops s) Hi)
      as (o' & Ho' & [Hs Hk]).
    exists o'. auto.
  - intros Hf Hst. now apply run_no_trade_for_final with i.
  - intros ops0 b c ->. apply tokens_fresh_run, tokens_fresh_init.
Qed.

Lemma terminal_orders_are_final_witness :
  let s := update_market_price one_buy_at_100 "BTCUSDT" 99 in
  let o := mkOrder 0 "BTCUSDT" SIDE_BUY ORDER_TYPE_LIMIT 1 100
                   (Some "GTC") false FILLED 0 in
  let s' := run [OpCancel "BTCUSDT" 0; OpTick "BTCUSDT" 50;
                 OpMarket "BTCUSDT" SIDE_SELL 1 false] s in
  orders s !! 0%nat = Some o /\
  orders s' !! 0%nat = Some o /\
  forall t, t ∈ drop (length (trades s)) (trades s') ->
            t_orderId t <> orderId o.
Proof.
  intros s o s'.
  assert (orders s !! 0%nat = Some o) as H by reflexivity.
  split; [exact H|].
  destruct (terminal_orders_are_final
              [OpCancel "BTCUSDT" 0%nat; OpTick "BTCUSDT" 50;
               OpMarket "BTCUSDT" SIDE_SELL 1 false] s 0 o H)
    as ((o' & Ho' & _ & Hk) & Hnone & Hreach).
  split.
  - subst s'. rewrite Ho'. f_equal. apply Hk. discriminate.
  - apply Hnone; [|discriminate].
    apply (Hreach [OpLimit "BTCUSDT" SIDE_BUY 1 100 "GTC" false;
                   OpTick "BTCUSDT" 99] 1000 0%Z).
    reflexivity.
Defined.

(** ** Ticks and the open orders *)

Lemma mark_not_eligible symbol tick o :
  eligible symbol tick (mark symbol tick o) = false.
Proof.
  unfold mark. destruct (eligible symbol tick o) eqn:E; [|exact E].
  unfold eligible, is_resting. cbn. now rewrite andb_false_r.
Qed.

Lemma mark_idempotent symbol tick o :
  mark symbol tick (mark symbol tick o) = mark symbol tick o.
Proof.
  unfold mark at 1. now rewrite mark_not_eligible.
Qed.

Lemma filter_eligible_marked symbol tick (l : list Order) :
  List.filter (eligible symbol tick) (mark symbol tick <$> l) = [].
Proof.
  induction l as [|o l IH]; [reflexivity|].
  rewrite fmap_cons. simpl. now rewrite mark_not_eligible.
Qed.

(** X15.  A tick is idempotent: repeating [update_market_price] with
    the same symbol and price changes nothing at all, so no order is
    filled twice and no commission is charged twice. *)
Theorem tick_idempotent (s : ClientSimulation) (symbol : string) (tick : Q) :
  update_market_price (update_market_price s symbol tick) symbol tick
  = update_market_price s symbol tick.
Proof.
  rewrite (update_market_price_spec (update_market_price s symbol tick)).
  cbv zeta.
  rewrite (update_market_price_spec s). cbv zeta.
  cbn [orders set_orders]. rewrite filter_eligible_marked.
  cbn [fold_left].
  rewrite <- list_fmap_compose.
  rewrite (list_fmap_ext (mark symbol tick ∘ mark symbol tick)
                         (mark symbol tick) (orders s))
    by (intros _ o _; apply mark_idempotent).
  rewrite fold_fill_set_market_prices.
  unfold set_orders, set_market_prices. cbn.
  rewrite insert_insert_eq. reflexivity.
Qed.

(** X16.  After a tick for a symbol, no limit order that
    [get_open_orders] still lists for that symbol is marketable at the
    tick price: every open buy has its limit below the tick and every
    open sell has its limit above it. *)
Theorem no_open_order_crosses_last_tick
    (s : ClientSimulation) (symbol : string) (tick : Q) (o : Order) :
  o ∈ get_open_orders (update_market_price s symbol tick) (Some symbol) ->
  o_type o = ORDER_TYPE_LIMIT ->
  o ∈ orders (update_market_price s symbol tick) /\
  status o = NEW /\ o_symbol o = symbol /\
  ~ fills_at tick o /\
  (o_side o = SIDE_BUY -> price o < tick) /\
  (o_side o = SIDE_SELL -> tick < price o).
Proof.
  intros Hin Hty. unfold get_open_orders in Hin.
  apply list_elem_of_In, filter_In in Hin as [Hin Htest].
  apply list_elem_of_In in Hin.
  apply andb_true_iff in Htest as [Hsym Hst]. cbn in Hsym.
  apply String.eqb_eq in Hsym.
  assert (status o = NEW) as Hnew by (destruct (status o); congruence).
  assert (~ fills_at tick o) as Hnf.
  { intros Hf.
    rewrite update_market_price_orders in Hin.
    apply list_elem_of_fmap in Hin as (o0 & -> & _).
    pose proof (mark_not_eligible symbol tick o0) as Hne.
    assert (eligible symbol tick (mark symbol tick o0) = true) as He
        by (apply eligible_spec; repeat split; assumption).
    congruence. }
  repeat split; try assumption.
  - intros Hb. apply Qnot_le_lt. intros Hle. apply Hnf. left. auto.
  - intros Hs. apply Qnot_le_lt. intros Hle. apply Hnf. right. auto.
Qed.

Lemma no_open_order_crosses_last_tick_witness :
  let o := mkOrder 0 "BTCUSDT" SIDE_BUY ORDER_TYPE_LIMIT 1 100
                   (Some "GTC") false NEW 0 in
  o ∈ get_open_orders (update_market_price one_buy_at_100 "BTCUSDT" 101)
                      (Some "BTCUSDT") /\
  ~ fills_at 101 o.
Proof.
  intros o.
  assert (o ∈ get_open_orders
                (update_market_price one_buy_at_100 "BTCUSDT" 101)
                (Some "BTCUSDT")) as H by (left).
  split; [exact H|].
  apply (no_open_order_crosses_last_tick one_buy_at_100 "BTCUSDT" 101 o H).
  reflexivity.
Defined.

(** ** [get_all_orders] *)

Lemma filter_filter_and {A} (f g : A -> bool) (l : list A) :
  List.filter g (List.filter f l) = List.filter (fun x => f x && g x) l.
Proof.
  induction l as [|x l IH]; [reflexivity|]. simpl.
  destruct (f x); simpl; [destruct (g x)|]; now rewrite IH.
Qed.

Lemma filter_sublist {A} (f : A -> bool) (l : list A) :
  sublist (List.filter f l) l.
Proof.
  induction l as [|x l IH]; simpl; [constructor|].
  destruct (f x); now constructor.
Qed.

(** X17.  [get_all_orders] selects, in the order of [self.orders],
    the orders of the symbol whose time lies in the window (a bound of
    [None] or 0 does not filter).  For a positive [limit] it returns
    the last [limit] of the selected orders (all of them when there are
    fewer); [limit = 0] returns all of them, not none; a negative
    [limit] drops the first [-limit]. *)
Theorem get_all_orders_limit
    (s : ClientSimulation) (symbol : string) (limit : Z)
    (start_time end_time : option Z) :
  let in_window := fun o : Order =>
    String.eqb (o_symbol o) symbol
    && match start_time with
       | Some t => Z.eqb t 0 || (t <=? time o)%Z
       | None => true
       end
    && match end_time with
       | Some t => Z.eqb t 0 || (time o <=? t)%Z
       | None => true
       end in
  let selected := List.filter in_window (orders s) in
  let result := get_all_orders s symbol limit start_time end_time in
  sublist selected (orders s) /\
  (forall o, o ∈ selected <->
     o ∈ orders s /\ o_symbol o = symbol /\
     (forall t, start_time = Some t -> t <> 0%Z -> (t <= time o)%Z) /\
     (forall t, end_time = Some t -> t <> 0%Z -> (time o <= t)%Z)) /\
  ((0 < limit)%Z ->
   result = drop (length selected - Z.to_nat limit) selected /\
   length result = Nat.min (Z.to_nat limit) (length selected) /\
   selected = take (length selected - Z.to_nat limit) selected ++ result) /\
  (limit = 0%Z -> result = selected) /\
  ((limit < 0)%Z -> result = drop (Z.to_nat (- limit)) selected) /\
  get_all_orders s symbol limit (Some 0%Z) end_time
  = get_all_orders s symbol limit None end_time /\
  get_all_orders s symbol limit start_time (Some 0%Z)
  = get_all_orders s symbol limit start_time None.
Proof.
  intros in_window selected result.
  assert (result = slice_from (- limit)%Z selected) as Hres.
  { subst result selected in_window. unfold get_all_orders. f_equal.
    destruct start_time as [t1|]; [destruct (Z.eqb t1 0)|];
      (destruct end_time as [t2|]; [destruct (Z.eqb t2 0)|]);
      rewrite ?filter_filter_and; apply filter_ext; intros o; cbn;
      rewrite ?andb_true_r, ?andb_assoc; reflexivity. }
  split; [apply filter_sublist|].
  split.
  { intros o. subst selected.
    rewrite list_elem_of_In, filter_In, <- list_elem_of_In.
    subst in_window. cbv beta.
    rewrite !andb_true_iff, String.eqb_eq.
    assert (match start_time with
            | Some t => Z.eqb t 0 || (t <=? time o)%Z
            | None => true
            end = true
            <-> forall t, start_time = Some t -> t <> 0%Z -> (t <= time o)%Z)
      as ->.
    { destruct start_time as [t|]; [|split; [discriminate | reflexivity]].
      rewrite orb_true_iff, Z.eqb_eq, Z.leb_le. split.
      - intros [H | H] t' [= <-] Hne; [contradiction | exact H].
      - intros H. destruct (Z.eq_dec t 0%Z); [now left | right; now apply H]. }
    assert (match end_time with
            | Some t => Z.eqb t 0 || (time o <=? t)%Z
            | None => true
            end = true
            <-> forall t, end_time = Some t -> t <> 0%Z -> (time o <= t)%Z)
      as ->.
    { destruct end_time as [t|]; [|split; [discriminate | reflexivity]].
      rewrite orb_true_iff, Z.eqb_eq, Z.leb_le. split.
      - intros [H | H] t' [= <-] Hne; [contradiction | exact H].
      - intros H. destruct (Z.eq_dec t 0%Z); [now left | right; now apply H]. }
    tauto. }
  split.
  { intros Hpos.
    assert (result = drop (length selected - Z.to_nat limit) selected) as Hd.
    { rewrite Hres. unfold slice_from.
      assert ((- limit <? 0)%Z = true) as -> by (apply Z.ltb_lt; lia).
      f_equal. lia. }
    split; [exact Hd|]. split.
    - rewrite Hd, length_drop. lia.
    - rewrite Hd. symmetry. apply take_drop. }
  split.
  { intros ->. rewrite Hres. reflexivity. }
  split.
  { intros Hneg. rewrite Hres. unfold slice_from.
    assert ((- limit <? 0)%Z = false) as -> by (apply Z.ltb_ge; lia).
    reflexivity. }
  split; reflexivity.
Qed.

End ClientBookFacts.

(** * Positions and risk figures of the simulation client *)

Module ClientRiskFacts.
Import Client ClientSpec ClientQueries ClientRun ClientFacts.

(** X18.  A sell of [q] against a long holding of [S1 > 0] entered at
    [P1]: selling exactly [S1] leaves size 0 and entry price 0; selling
    more flips the holding to [S1 - q < 0] entered at the fill price;
    selling less leaves [S1 - q] but does not keep the entry price: it
    becomes [(S1*P1 + q*price) / (S1 - q)], the averaging formula of a
    scale-in applied to the reduced size. *)
Theorem sell_against_long
    (self : ClientSimulation) (symbol : string) (S1 P1 q p : Q) :
  positions self !! symbol = Some (mkHolding S1 P1) ->
  0 < S1 ->
  exists h,
    positions (_update_position self symbol SIDE_SELL q p) !! symbol = Some h /\
    h_size h = S1 - q /\
    (q == S1 -> h_entry_price h = 0) /\
    (S1 < q -> h_entry_price h = p) /\
    (0 < q -> q < S1 ->
     h_entry_price h == (S1 * P1 + q * p) / (S1 - q)).
Proof.
  intros Hpos H1.
  pose proof (update_position_holding self symbol SIDE_SELL q p) as Hh.
  rewrite Hpos in Hh.
  change (String.eqb SIDE_SELL SIDE_BUY) with false in Hh.
  change (default _ (Some (mkHolding S1 P1))) with (mkHolding S1 P1) in Hh.
  cbn [h_size h_entry_price] in Hh. cbv zeta in Hh.
  eexists. split; [exact Hh|]. cbn [h_size h_entry_price].
  split; [reflexivity|]. split; [|split].
  - intros Hq.
    assert (Qeq_bool (S1 - q) 0 = true) as ->
        by (apply Qeq_bool_iff; rewrite Hq; ring).
    rewrite orb_true_r. reflexivity.
  - intros Hq.
    assert (S1 * (S1 - q) <= 0) as Hle.
    { assert (0 < S1 * (q - S1)) by (apply Qmult_lt_0_compat; lra). lra. }
    apply Qle_bool_iff in Hle. rewrite Hle. cbn [orb].
    assert (Qeq_bool (S1 - q) 0 = false) as ->
        by (apply Qeq_bool_false; lra).
    reflexivity.
  - intros Hq0 Hq.
    assert (0 < S1 * (S1 - q)) as Hprod
        by (apply Qmult_lt_0_compat; lra).
    assert (Qle_bool (S1 * (S1 - q)) 0 = false) as ->
        by (now apply Qle_bool_false).
    assert (Qeq_bool (S1 - q) 0 = false) as ->
        by (apply Qeq_bool_false; lra).
    cbn [orb].
    rewrite (Qabs_pos S1) by lra.
    rewrite (Qabs_pos (S1 - q)) by lra.
    reflexivity.
Qed.

Lemma sell_against_long_witness :
  let self := _update_position (init 1000 0) "BTCUSDT" SIDE_BUY 2 100 in
  positions self !! "BTCUSDT" = Some (mkHolding (0 + 2) 100) /\
  exists h,
    positions (_update_position self "BTCUSDT" SIDE_SELL 1 110) !! "BTCUSDT"
    = Some h /\
    h_entry_price h == 310.
Proof.
  intros self.
  assert (positions self !! "BTCUSDT" = Some (mkHolding (0 + 2) 100)) as H
      by reflexivity.
  split; [exact H|].
  destruct (sell_against_long self "BTCUSDT" (0 + 2) 100 1 110 H
              ltac:(reflexivity)) as (h & Hh & _ & _ & _ & Havg).
  exists h. split; [exact Hh|].
  rewrite Havg by reflexivity. reflexivity.
Defined.

(** X19.  The unrealized PnL of a symbol is 0 as long as no price was
    ever recorded for it (the entry price stands in for the mark), and
    after a tick at [tick] that fills no order it is
    [(tick - entry_price) * size] for the holding as it was, with [size]
    signed. *)
Theorem unrealized_pnl_after_tick
    (s : ClientSimulation) (symbol : string) (h : Holding) (tick : Q) :
  positions s !! symbol = Some h ->
  (market_prices s !! symbol = None ->
   _calculate_unrealized_pnl s symbol == 0) /\
  (List.filter (eligible symbol tick) (orders s) = [] ->
   _calculate_unrealized_pnl (update_market_price s symbol tick) symbol
   == (tick - h_entry_price h) * h_size h).
Proof.
  intros Hpos. split.
  - intros Hmp. unfold _calculate_unrealized_pnl. rewrite Hpos, Hmp.
    destruct (Qeq_bool (h_size h) 0); cbn; ring.
  - intros Hnone. rewrite update_market_price_spec. cbv zeta.
    rewrite Hnone. cbn [fold_left].
    unfold _calculate_unrealized_pnl.
    cbn [positions market_prices set_orders set_market_prices].
    rewrite Hpos, lookup_insert_eq. cbn [default].
    destruct (Qeq_bool (h_size h) 0) eqn:E; [|reflexivity].
    apply Qeq_bool_iff in E. rewrite E. ring.
Qed.

Lemma unrealized_pnl_after_tick_witness :
  let s := fst (place_market_order thin_client "BTCUSDT" SIDE_SELL 2 false) in
  positions s !! "BTCUSDT" = Some (mkHolding (0 - 2) 100) /\
  _calculate_unrealized_pnl (update_market_price s "BTCUSDT" 90) "BTCUSDT"
  == (90 - 100) * (0 - 2).
Proof.
  intros s.
  assert (positions s !! "BTCUSDT" = Some (mkHolding (0 - 2) 100)) as H
      by reflexivity.
  split; [exact H|].
  apply (unrealized_pnl_after_tick s "BTCUSDT" (mkHolding (0 - 2) 100) 90 H).
  reflexivity.
Defined.

Lemma leverage_inverse_bounds lev :
  (1 <= lev < 250)%Z -> 0.004 < 1 / inject_Z lev.
Proof.
  intros [Hlo Hhi].
  apply Qlt_shift_div_l.
  - unfold Qlt. cbn. lia.
  - unfold Qlt. cbn. lia.
Qed.

(** X20.  For a holding with a positive entry price and a leverage
    between 1 and 249, the estimated liquidation price is
    [entry * (1 - 1/leverage + 0.004)], below the entry price, for a
    long, and [entry * (1 + 1/leverage - 0.004)], above the entry price,
    for a short. *)
Theorem liquidation_price_sides
    (self : ClientAccount) (symbol : string) (h : Holding) (lev : Z) :
  positions (core self) !! symbol = Some h ->
  ~ h_size h == 0 ->
  leverage self = Some lev ->
  (1 <= lev < 250)%Z ->
  0 < h_entry_price h ->
  exists liq,
    _calculate_liquidation_price self symbol = Some liq /\
    (0 < h_size h ->
     liq = h_entry_price h * (1 - 1 / inject_Z lev + 0.004) /\
     liq < h_entry_price h) /\
    (h_size h < 0 ->
     liq = h_entry_price h * (1 + 1 / inject_Z lev - 0.004) /\
     h_entry_price h < liq).
Proof.
  intros Hpos Hsz Hlev Hrange Hentry.
  pose proof (leverage_inverse_bounds lev Hrange) as Hinv.
  unfold _calculate_liquidation_price. rewrite Hpos, Hlev.
  apply Qeq_bool_false in Hsz. rewrite Hsz.
  assert (Z.eqb lev 0 = false) as -> by (apply Z.eqb_neq; lia).
  set (r := 1 / inject_Z lev) in *. clearbody r.
  destruct (Qltb 0 (h_size h)) eqn:E.
  - apply Qltb_lt in E. eexists. split; [reflexivity|]. split.
    + intros _. split; [reflexivity|].
      assert (0 < h_entry_price h * (r - 0.004))
        by (apply Qmult_lt_0_compat; lra).
      lra.
    + intros Hneg. lra.
  - apply Qltb_ge in E. eexists. split; [reflexivity|]. split.
    + intros Hposz. lra.
    + intros _. split; [reflexivity|].
      assert (0 < h_entry_price h * (r - 0.004))
        by (apply Qmult_lt_0_compat; lra).
      lra.
Qed.

Lemma liquidation_price_sides_witness :
  let s := fst (place_market_order thin_client "BTCUSDT" SIDE_BUY 2 false) in
  let self := fst (set_leverage (mkAccount s None None) "BTCUSDT" 10) in
  positions (core self) !! "BTCUSDT" = Some (mkHolding (0 + 2) 100) /\
  exists liq,
    _calculate_liquidation_price self "BTCUSDT" = Some liq /\ liq < 100.
Proof.
  intros s self.
  assert (positions (core self) !! "BTCUSDT" = Some (mkHolding (0 + 2) 100))
    as H by reflexivity.
  split; [exact H|].
  destruct (liquidation_price_sides self "BTCUSDT" (mkHolding (0 + 2) 100) 10 H
              ltac:(discriminate) eq_refl ltac:(lia) ltac:(reflexivity))
    as (liq & Hliq & Hlong & _).
  exists liq. split; [exact Hliq|]. apply Hlong. reflexivity.
Defined.

(** X21.  [_calculate_liquidation_price] returns 0 for a symbol
    without a holding or with size 0, whether or not a leverage was
    ever set; for a holding with a size it raises exactly when
    [set_leverage] was never called or the leverage is 0, so after
    [set_leverage] with a non-zero leverage it always returns a
    price. *)
Theorem liquidation_price_errors (self : ClientAccount) (symbol : string) :
  (positions (core self) !! symbol = None ->
   _calculate_liquidation_price self symbol = Some 0) /\
  (forall h, positions (core self) !! symbol = Some h ->
     (h_size h == 0 -> _calculate_liquidation_price self symbol = Some 0) /\
     (~ h_size h == 0 ->
      (_calculate_liquidation_price self symbol = None
       <-> leverage self = None \/ leverage self = Some 0%Z))) /\
  (forall sym lev, lev <> 0%Z ->
     is_Some (_calculate_liquidation_price
                (fst (set_leverage self sym lev)) symbol)).
Proof.
  split; [|split].
  - intros H. unfold _calculate_liquidation_price. now rewrite H.
  - intros h H. unfold _calculate_liquidation_price. rewrite H. split.
    + intros Hz. apply Qeq_bool_iff in Hz. now rewrite Hz.
    + intros Hnz. apply Qeq_bool_false in Hnz. rewrite Hnz.
      destruct (leverage self) as [lev|].
      * destruct (Z.eqb lev 0) eqn:E.
        -- apply Z.eqb_eq in E. subst. split; auto.
        -- apply Z.eqb_neq in E.
           destruct (Qltb 0 (h_size h)); split; try discriminate;
             intros [Hd | Hd]; congruence.
      * split; auto.
  - intros sym lev Hlev. unfold _calculate_liquidation_price, set_leverage.
    cbn [fst core leverage].
    destruct (positions (core self) !! symbol) as [h|]; [|eauto].
    destruct (Qeq_bool (h_size h) 0); [eauto|].
    apply Z.eqb_neq in Hlev. rewrite Hlev.
    destruct (Qltb 0 (h_size h)); eauto.
Qed.

End ClientRiskFacts.
